(** * goldilex: retrieval controller, validation engine and generation loop

    A shallow embedding of [src/lib/controller.ts], [src/lib/validation.ts]
    and the loop of [src/app/api/generate/route.ts], followed by the
    properties of the specification that concern them.

    Conventions of the embedding.
    - A JavaScript string is a [string] whose characters are the code units
      U+0000..U+00FF (one [ascii] per UTF-16 code unit).  On that range
      [toLowerCase], [\s], [\w], [\d] and [trim] are modelled exactly.
    - A JavaScript number is an IEEE 754 binary64 value: [float], with the
      kernel's primitive operations.
    - An optional or nullable field is an [option]; the truthiness tests of
      the source ([!x], [x || y]) are written out with [truthy] and [or_else].
    - A regular expression literal is a [regex] value run by a backtracking
      matcher with the greedy, leftmost semantics of ECMAScript.
    - A loop that may run for ever ([computeAnalyticalPath] on a cycle of
      parent links) takes fuel and reports when it is spent; the loops
      over regex matches carry their own fuel, shown to be enough.
    - The text-completion collaborator is the sequence of its replies.
      The instruction compiler and the feedback block, which build the
      prompt sent to it, are embedded apart from the loop; the notes
      parser is a parameter of the functions that call it. *)

From Stdlib Require Import List String Ascii Bool Arith ZArith Lia.
From Stdlib Require Import Floats Uint63.
From Stdlib Require DecimalString.
Import ListNotations.

Set Warnings "-inexact-float".

Local Open Scope list_scope.
Local Open Scope string_scope.
Local Open Scope nat_scope.

(* ================================================================= *)
(** ** JavaScript strings, regular expressions and numbers *)

Module JS.

Definition code (c : ascii) : nat := nat_of_ascii c.

Definition between (lo hi : nat) (c : ascii) : bool :=
  (lo <=? code c) && (code c <=? hi).

(** [A-Z], [a-z], [\d], [\w] and [\s] restricted to code units below 256. *)
Definition is_upper : ascii -> bool := between 65 90.
Definition is_lower : ascii -> bool := between 97 122.
Definition is_alpha (c : ascii) : bool := is_lower c || is_upper c.
Definition is_digit : ascii -> bool := between 48 57.
Definition is_word (c : ascii) : bool :=
  is_alpha c || is_digit c || (code c =? 95).
Definition is_space (c : ascii) : bool :=
  between 9 13 c || (code c =? 32) || (code c =? 160).

(** [String.prototype.toLowerCase]: A-Z and the Latin-1 capitals
    U+00C0..U+00DE (U+00D7, the multiplication sign, excepted). *)
Definition lower_char (c : ascii) : ascii :=
  if is_upper c || (between 192 222 c && negb (code c =? 215))
  then ascii_of_nat (code c + 32) else c.

Fixpoint toLowerCase (s : string) : string :=
  match s with
  | EmptyString => EmptyString
  | String c t => String (lower_char c) (toLowerCase t)
  end.

(** [hay.includes(needle)]. *)
Fixpoint includes (hay needle : string) : bool :=
  String.prefix needle hay ||
  match hay with
  | EmptyString => false
  | String _ t => includes t needle
  end.

(** [s.trim()]. *)
Fixpoint trimStart (s : string) : string :=
  match s with
  | String c t => if is_space c then trimStart t else s
  | EmptyString => EmptyString
  end.

Fixpoint trimEnd (s : string) : string :=
  match s with
  | EmptyString => EmptyString
  | String c t =>
      match trimEnd t with
      | EmptyString => if is_space c then EmptyString else String c EmptyString
      | t' => String c t'
      end
  end.

Definition trim (s : string) : string := trimEnd (trimStart s).

(** [xs.join(sep)]. *)
Fixpoint join (sep : string) (xs : list string) : string :=
  match xs with
  | [] => EmptyString
  | [x] => x
  | x :: rest => x ++ sep ++ join sep rest
  end.

(** Template-literal rendering of a non-negative integer. *)
Definition show_nat (n : nat) : string :=
  DecimalString.NilZero.string_of_uint (Nat.to_uint n).

(** [Array.from(new Set(xs))]: the first occurrence of each string, in
    insertion order. *)
Fixpoint dedupe_from (seen : list string) (xs : list string) : list string :=
  match xs with
  | [] => []
  | x :: rest =>
      if existsb (String.eqb x) seen then dedupe_from seen rest
      else x :: dedupe_from (x :: seen) rest
  end.

Definition dedupe : list string -> list string := dedupe_from [].

(** *** Regular expressions *)

Inductive regex : Type :=
| Class (p : ascii -> bool)      (* one character of a class *)
| Seq (r1 r2 : regex)            (* r1 r2 *)
| Star (r : regex)               (* r*, greedy *)
| Group (n : nat) (r : regex).   (* n-th capturing group *)

Definition Plus (r : regex) : regex := Seq r (Star r).
Definition Lit (c : ascii) : regex := Class (Ascii.eqb c).

Definition captures : Type := list (nat * string).

Definition consumed (s rest : string) : string :=
  substring 0 (String.length s - String.length rest) s.

(** Backtracking matcher in continuation-passing style.  [rmatch r s c k]
    matches [r] at the head of [s] and hands the remaining input to [k];
    a failure of [k] makes the matcher try its next alternative.  An
    iteration of [Star] that consumes nothing is rejected, as in ECMAScript. *)
Fixpoint rmatch (r : regex) (s : string) (c : captures)
    (k : string -> captures -> option (string * captures))
    : option (string * captures) :=
  match r with
  | Class p =>
      match s with
      | String a t => if p a then k t c else None
      | EmptyString => None
      end
  | Seq r1 r2 => rmatch r1 s c (fun s1 c1 => rmatch r2 s1 c1 k)
  | Star r1 =>
      (fix iter (n : nat) (s : string) (c : captures) {struct n} :=
         match n with
         | O => k s c
         | S n' =>
             match rmatch r1 s c (fun s1 c1 =>
                     if String.length s1 <? String.length s
                     then iter n' s1 c1 else None) with
             | Some res => Some res
             | None => k s c
             end
         end) (String.length s) s c
  | Group n r1 =>
      rmatch r1 s c (fun s1 c1 => k s1 ((n, consumed s s1) :: c1))
  end.

(** A match anchored at the head of [s]: the rest of the input and the
    captures. *)
Definition match_here (r : regex) (s : string) : option (string * captures) :=
  rmatch r s [] (fun rest c => Some (rest, c)).

Record rx_match : Type := mkMatch {
  matched : string;          (* match[0] *)
  groups : captures;         (* match[1], match[2], ... *)
  after : string             (* the input from lastIndex on *)
}.

(** One [re.exec(text)] of a global regex: the leftmost position at which
    the matcher succeeds. *)
Fixpoint exec (r : regex) (s : string) : option rx_match :=
  match match_here r s with
  | Some (rest, c) => Some (mkMatch (consumed s rest) c rest)
  | None =>
      match s with
      | EmptyString => None
      | String _ t => exec r t
      end
  end.

Definition group (n : nat) (m : rx_match) : string :=
  match find (fun p => fst p =? n) (groups m) with
  | Some p => snd p
  | None => EmptyString
  end.

(** [while ((match = re.exec(text)) !== null) ...]: all matches, left to
    right.  Every iteration is charged one unit of fuel. *)
Fixpoint exec_loop (fuel : nat) (r : regex) (s : string) : list rx_match :=
  match fuel with
  | O => []
  | S fuel' =>
      match exec r s with
      | None => []
      | Some m => m :: exec_loop fuel' r (after m)
      end
  end.

Definition exec_all (r : regex) (s : string) : list rx_match :=
  exec_loop (S (String.length s)) r s.

(** [s.split(re)] for a regex without capturing groups. *)
Fixpoint split_loop (fuel : nat) (r : regex) (piece s : string) : list string :=
  match fuel with
  | O => [piece ++ s]
  | S fuel' =>
      match s with
      | EmptyString => [piece]
      | String a t =>
          match match_here r s with
          | None => split_loop fuel' r (piece ++ String a EmptyString) t
          | Some (rest, _) =>
              if (String.length rest =? String.length s)
                 && (String.length piece =? 0)
              then split_loop fuel' r (piece ++ String a EmptyString) t
              else piece :: split_loop fuel' r EmptyString rest
          end
      end
  end.

Definition split (r : regex) (s : string) : list string :=
  match s with
  | EmptyString =>
      match match_here r s with Some _ => [] | None => [EmptyString] end
  | _ => split_loop (2 * String.length s + 1) r EmptyString s
  end.

(** [s.replace(re, rep)] for a global regex and a replacement text free
    of [$] patterns. *)
Fixpoint replace_loop (fuel : nat) (r : regex) (rep s : string) : string :=
  match fuel with
  | O => s
  | S fuel' =>
      let skip :=
        match s with
        | EmptyString => EmptyString
        | String a t => String a (replace_loop fuel' r rep t)
        end in
      match match_here r s with
      | None => skip
      | Some (rest, _) =>
          if String.length rest <? String.length s
          then rep ++ replace_loop fuel' r rep rest
          else rep ++ skip
      end
  end.

Definition replace (r : regex) (rep s : string) : string :=
  replace_loop (S (String.length s)) r rep s.

(** The character classes of the source's patterns. *)
Definition ws : regex := Class is_space.                         (* \s *)
Definition not_word_or_space : regex :=                          (* [^\w\s] *)
  Class (fun c => negb (is_word c || is_space c)).


(** *** Numbers *)

(** A count (an array length) as a number; exact below 2^53. *)
Definition of_nat (n : nat) : float :=
  PrimFloat.of_uint63 (Uint63.of_Z (Z.of_nat n)).

Definition is_pos_zero (x : float) : bool :=
  PrimFloat.is_zero x && negb (PrimFloat.get_sign x).
Definition is_neg_zero (x : float) : bool :=
  PrimFloat.is_zero x && PrimFloat.get_sign x.

(** [Math.max(a, b)] and [Math.min(a, b)]: NaN is contagious and -0 is
    ordered below +0. *)
Definition Math_max (a b : float) : float :=
  if PrimFloat.is_nan a || PrimFloat.is_nan b then PrimFloat.nan
  else if (is_pos_zero b && is_neg_zero a) || (a <? b)%float then b else a.

Definition Math_min (a b : float) : float :=
  if PrimFloat.is_nan a || PrimFloat.is_nan b then PrimFloat.nan
  else if (is_neg_zero b && is_pos_zero a) || (b <? a)%float then b else a.

Definition Math_sqrt : float -> float := PrimFloat.sqrt.

(** [xs.reduce((acc, val, i) => f(acc, val, i), init)]. *)
Fixpoint reduce_from {A B : Type} (f : B -> A -> nat -> B) (i : nat)
    (xs : list A) (acc : B) : B :=
  match xs with
  | [] => acc
  | x :: rest => reduce_from f (S i) rest (f acc x i)
  end.

Definition reduce {A B : Type} (f : B -> A -> nat -> B) (xs : list A)
    (init : B) : B :=
  reduce_from f 0 xs init.

(** [x || d] and the truthiness of an optional string. *)
Definition truthy (x : option string) : bool :=
  match x with
  | Some s => negb (String.eqb s EmptyString)
  | None => false
  end.

Definition or_else (x : option string) (d : string) : string :=
  match x with
  | Some s => if String.eqb s EmptyString then d else s
  | None => d
  end.

End JS.

(* ================================================================= *)
(** ** Data model ([src/types/bset.ts]) *)

(** The fields of [BSetItem] that the controller and the validator read. *)
Module BSetItem.
Record t : Type := mk {
  id : string;
  name : option string;         (* read as [obj.name || ''] *)
  citation : option string;
  holding : option string;
  rule_of_law : option string;
  rule : option string;
  notes : option string;
  taxonomy_path : list string
}.
End BSetItem.

Module TaxonomyNode.
Record t : Type := mk {
  id : string;
  title : string;
  parent_id : option string     (* [string | null | undefined] *)
}.
End TaxonomyNode.

Module ContentSegment.
Record t : Type := mk { text : option string }.
End ContentSegment.

Inductive Content : Type :=
| Text (s : string)
| Segments (segs : list ContentSegment.t).

Inductive NoteType : Type :=
| test_standard | element_factor | macro_fork | micro_fork | general | footnote.

(** The optional flags read as [false] when absent; the random [id] of a
    constraint is never read and is left out. *)
Module ConstraintObject.
Record t : Type := mk {
  path : list string;
  note_type : NoteType;
  content : Content;
  is_test_standard : bool;
  is_element_factor : bool;
  is_macro_fork : bool
}.
End ConstraintObject.

Module BSetFile.
Record t : Type := mk {
  items : list BSetItem.t;
  headings : list TaxonomyNode.t      (* [_meta.headings] *)
}.
End BSetFile.

Module AuthorizedContext.
Record t : Type := mk {
  reasoning_objects : list BSetItem.t;
  constraint_objects : list ConstraintObject.t;
  analytical_path : list string;
  target_node : TaxonomyNode.t
}.
End AuthorizedContext.

Inductive CheckType : Type :=
| citation_verification | rule_to_field_mapping
| constraint_compliance | schema_conformance.

Inductive CheckStatus : Type := PASS | FAIL | WARNING.

Module ValidationCheck.
Record t : Type := mk {
  check_type : CheckType;
  status : CheckStatus;
  details : string;
  failed_assertion : option string;
  best_match_similarity : option float;
  threshold : option float;
  missing_element : option string
}.
End ValidationCheck.

Inductive OverallStatus : Type := PASSED | FAILED.
Inductive Severity : Type := MINOR | MAJOR | CRITICAL.
Inductive Action : Type := CORRECT | REGENERATE | REJECT.

Module ValidationResult.
Record t : Type := mk {
  overall_status : OverallStatus;
  validation_checks : list ValidationCheck.t;
  severity : option Severity;
  recommended_action : option Action
}.
End ValidationResult.

Inductive GenerationStatus : Type := validated | corrected | flagged | rejected.

Module GenerationRequest.
Record t : Type := mk {
  query : option string;
  bset_file : option BSetFile.t;
  target_node_id : option string;
  max_iterations : option nat
}.
End GenerationRequest.

Module GenerationResponse.
Record t : Type := mk {
  generated_text : string;
  validation_report : option ValidationResult.t;   (* unset if the loop never ran *)
  status : GenerationStatus;
  authorized_context : AuthorizedContext.t;
  iterations : nat
}.
End GenerationResponse.

Definition check_type_eqb (a b : CheckType) : bool :=
  match a, b with
  | citation_verification, citation_verification
  | rule_to_field_mapping, rule_to_field_mapping
  | constraint_compliance, constraint_compliance
  | schema_conformance, schema_conformance => true
  | _, _ => false
  end.

Definition status_eqb (a b : CheckStatus) : bool :=
  match a, b with
  | PASS, PASS | FAIL, FAIL | WARNING, WARNING => true
  | _, _ => false
  end.

(* ================================================================= *)
(** ** The external controller ([src/lib/controller.ts]) *)

Module Controller.
Import JS.

(** What a call of the source can do: return, throw, or still be running
    when the fuel of the model is spent. *)
Inductive outcome (A : Type) : Type :=
| Returned (a : A)
| Thrown (message : string)
| OutOfFuel.
Arguments Returned {A} a.
Arguments Thrown {A} message.
Arguments OutOfFuel {A}.

(** [words.filter(w => w === word).length] *)
Definition occurrences (word : string) (words : list string) : nat :=
  List.length (filter (fun w => String.eqb w word) words).

Definition computeCosineSimilarity (text1 text2 : string) : float :=
  let words1 := split (Plus ws) (toLowerCase text1) in
  let words2 := split (Plus ws) (toLowerCase text2) in
  let allWords := dedupe (words1 ++ words2)%list in
  let vector1 := map (fun word => of_nat (occurrences word words1)) allWords in
  let vector2 := map (fun word => of_nat (occurrences word words2)) allWords in
  let dotProduct :=
    reduce (fun sum val i => sum + val * nth i vector2 PrimFloat.nan)%float
           vector1 0%float in
  let magnitude1 :=
    Math_sqrt (reduce (fun sum val _ => sum + val * val)%float vector1 0%float) in
  let magnitude2 :=
    Math_sqrt (reduce (fun sum val _ => sum + val * val)%float vector2 0%float) in
  if (magnitude1 =? 0)%float || (magnitude2 =? 0)%float then 0%float
  else (dotProduct / (magnitude1 * magnitude2))%float.

Definition stopWords : list string :=
  ["the"; "a"; "an"; "and"; "or"; "but"; "in"; "on"; "at"; "to"; "for";
   "of"; "with"; "by"; "from"; "as"; "is"; "was"; "are"; "were"; "been";
   "be"; "have"; "has"; "had"; "do"; "does"; "did"; "will"; "would";
   "should"; "could"; "may"; "might"; "can"; "what"; "which"; "who";
   "when"; "where"; "why"; "how"].

Definition isStopWord (word : string) : bool :=
  existsb (String.eqb (toLowerCase word)) stopWords.

(** [taxonomy.find(n => !n.parent_id) || taxonomy[0] || null] *)
Definition rootFallback (taxonomy : list TaxonomyNode.t)
    : option TaxonomyNode.t :=
  match find (fun n => negb (truthy (TaxonomyNode.parent_id n))) taxonomy with
  | Some n => Some n
  | None => hd_error taxonomy
  end.

Definition determineTargetNode (query : string)
    (taxonomy : list TaxonomyNode.t) (threshold : float)
    : option TaxonomyNode.t :=
  let queryTerms :=
    filter (fun term => (2 <? String.length term) && negb (isStopWord term))
      (split (Plus ws)
         (replace not_word_or_space " " (toLowerCase query))) in
  if List.length queryTerms =? 0 then rootFallback taxonomy
  else
    let best :=
      fold_left
        (fun (acc : option TaxonomyNode.t * float) node =>
           let nodeText := toLowerCase (TaxonomyNode.title node) in
           let score := computeCosineSimilarity query nodeText in
           if (snd acc <? score)%float then (Some node, score) else acc)
        taxonomy (None, threshold) in
    match fst best with
    | Some node => Some node
    | None => rootFallback taxonomy
    end.

Definition default_threshold : float := 0.15%float.

(** The [while (currentNode)] loop of [computeAnalyticalPath]: one unit of
    fuel per visited node; [None] when the fuel is spent before the loop
    ends (the source loops for ever on a cycle of parent links). *)
Fixpoint climb (fuel : nat) (taxonomy : list TaxonomyNode.t)
    (currentNode : TaxonomyNode.t) (path : list string)
    : option (list string) :=
  match fuel with
  | O => None
  | S fuel' =>
      let path := TaxonomyNode.id currentNode :: path in
      match TaxonomyNode.parent_id currentNode with
      | None => Some path
      | Some parent =>
          if String.eqb parent EmptyString then Some path
          else
            match find (fun n => String.eqb (TaxonomyNode.id n) parent)
                       taxonomy with
            | Some n => climb fuel' taxonomy n path
            | None => Some path
            end
      end
  end.

Definition computeAnalyticalPath (fuel : nat) (targetNode : TaxonomyNode.t)
    (taxonomy : list TaxonomyNode.t) : option (list string) :=
  climb fuel taxonomy targetNode [].

(** [xs.every((x, idx) => f(x, idx))] *)
Fixpoint every_from {A : Type} (f : A -> nat -> bool) (i : nat)
    (xs : list A) : bool :=
  match xs with
  | [] => true
  | x :: rest => f x i && every_from f (S i) rest
  end.

(** [id === other[idx]]: an index out of range reads [undefined]. *)
Definition same_at (other : list string) (id : string) (idx : nat) : bool :=
  match nth_error other idx with
  | Some id' => String.eqb id id'
  | None => false
  end.

Definition pathsMatch (path1 path2 : list string) : bool :=
  if negb (List.length path1 =? List.length path2) then false
  else every_from (same_at path2) 0 path1.

Definition isAnalyticalPathPrefixOfItem (analyticalPath itemPath : list string)
    : bool :=
  if List.length itemPath <? List.length analyticalPath then false
  else every_from (same_at itemPath) 0 analyticalPath.

Definition retrieveReasoningObjects (analyticalPath : list string)
    (items : list BSetItem.t) : list BSetItem.t :=
  let buckets :=
    fold_left
      (fun (acc : list BSetItem.t * list BSetItem.t) item =>
         let itemPath := BSetItem.taxonomy_path item in
         if pathsMatch itemPath analyticalPath
         then (fst acc ++ [item], snd acc)%list
         else if isAnalyticalPathPrefixOfItem analyticalPath itemPath
         then (fst acc, snd acc ++ [item])%list
         else acc)
      items ([], []) in
  (fst buckets ++ snd buckets)%list.

(** Step 1 of [processQuery]: the node named by [targetNodeId] when one is
    given, the node determined from the query otherwise. *)
Definition targetNodeOf (taxonomy : list TaxonomyNode.t) (query : string)
    (targetNodeId : option string) : option TaxonomyNode.t :=
  if truthy targetNodeId
  then find (fun n => String.eqb (TaxonomyNode.id n) (or_else targetNodeId ""))
            taxonomy
  else determineTargetNode query taxonomy default_threshold.

Definition assembleAuthorizedContext (analyticalPath : list string)
    (targetNode : TaxonomyNode.t) (reasoningObjects : list BSetItem.t)
    (constraintObjects : list ConstraintObject.t) : AuthorizedContext.t :=
  AuthorizedContext.mk reasoningObjects constraintObjects analyticalPath
    targetNode.

Section WithNotesParser.

(** [parseNotesForConstraints] scans the notes for the four directive
    markers; its patterns use marker characters beyond U+00FF and its
    records carry random identifiers.  It is kept abstract: the properties
    below hold for every parser. *)
Variable parseNotesForConstraints :
  string -> list string -> list ConstraintObject.t.

Definition retrieveConstraintObjects (analyticalPath : list string)
    (bsetFile : BSetFile.t) : list ConstraintObject.t :=
  fold_left
    (fun constraints item =>
       if negb (truthy (BSetItem.notes item)) then constraints
       else
         let itemPath := BSetItem.taxonomy_path item in
         if negb (pathsMatch itemPath analyticalPath)
            && negb (isAnalyticalPathPrefixOfItem analyticalPath itemPath)
         then constraints
         else
           (constraints ++
            parseNotesForConstraints (or_else (BSetItem.notes item) "")
              itemPath)%list)
    (BSetFile.items bsetFile) [].

(** [ExternalController.processQuery] *)
Definition processQuery (fuel : nat) (bsetFile : BSetFile.t) (query : string)
    (targetNodeId : option string) : outcome AuthorizedContext.t :=
  let taxonomy := BSetFile.headings bsetFile in
  match targetNodeOf taxonomy query targetNodeId with
  | None => Thrown "Could not determine target analytical node from query"
  | Some targetNode =>
      match computeAnalyticalPath fuel targetNode taxonomy with
      | None => OutOfFuel
      | Some analyticalPath =>
          let reasoningObjects :=
            retrieveReasoningObjects analyticalPath (BSetFile.items bsetFile) in
          let constraintObjects :=
            retrieveConstraintObjects analyticalPath bsetFile in
          Returned (assembleAuthorizedContext analyticalPath targetNode
                      reasoningObjects constraintObjects)
      end
  end.

End WithNotesParser.

End Controller.

(* ================================================================= *)
(** ** The validation engine ([src/lib/validation.ts]) *)

Module Validation.
Import JS.

(** [[A-Z][a-zA-Z]+] and [[A-Z][a-zA-Z]+(?:\s+[A-Z][a-zA-Z]+)*] *)
Definition capitalized : regex := Seq (Class is_upper) (Plus (Class is_alpha)).
Definition caseName : regex := Seq capitalized (Star (Seq (Plus ws) capitalized)).

(** [/(caseName)\s+v\.\s+(caseName)/g] *)
Definition pattern1 : regex :=
  Seq (Group 1 caseName)
    (Seq (Plus ws)
       (Seq (Lit "v") (Seq (Lit ".") (Seq (Plus ws) (Group 2 caseName))))).

(** [/\d+\s+U\.S\.\s+\d+/g] *)
Definition pattern2 : regex :=
  Seq (Plus (Class is_digit))
    (Seq (Plus ws)
       (Seq (Lit "U") (Seq (Lit ".") (Seq (Lit "S") (Seq (Lit ".")
          (Seq (Plus ws) (Plus (Class is_digit)))))))).

Definition extractCitations (text : string) : list string :=
  let fromPattern1 :=
    map (fun m => group 1 m ++ " v. " ++ group 2 m) (exec_all pattern1 text) in
  let fromPattern2 := map matched (exec_all pattern2 text) in
  let citations := (fromPattern1 ++ fromPattern2)%list in
  dedupe citations.

Definition normalizeCitation (citation : string) : string :=
  trim (replace (Plus ws) " "
          (replace not_word_or_space "" (toLowerCase citation))).

(** The callback of [authorizedObjects.some(...)]. *)
Definition citationMatches (normalized : string) (obj : BSetItem.t) : bool :=
  let objName := normalizeCitation (or_else (BSetItem.name obj) "") in
  let objCitation := normalizeCitation (or_else (BSetItem.citation obj) "") in
  String.eqb normalized objName || String.eqb normalized objCitation
  || includes normalized objName || includes objName normalized.

Definition isAuthorized (authorizedObjects : list BSetItem.t)
    (citation : string) : bool :=
  existsb (citationMatches (normalizeCitation citation)) authorizedObjects.

Definition verifyCitations (generatedText : string)
    (authorizedObjects : list BSetItem.t) : ValidationCheck.t :=
  let extractedCitations := extractCitations generatedText in
  let unauthorizedCitations :=
    fold_left
      (fun unauthorized citation =>
         if negb (isAuthorized authorizedObjects citation)
         then (unauthorized ++ [citation])%list else unauthorized)
      extractedCitations [] in
  if 0 <? List.length unauthorizedCitations then
    ValidationCheck.mk citation_verification FAIL
      ("Found " ++ show_nat (List.length unauthorizedCitations)
       ++ " unauthorized citation(s): " ++ join ", " unauthorizedCitations)
      (hd_error unauthorizedCitations) None None None
  else
    ValidationCheck.mk citation_verification PASS
      ("All " ++ show_nat (List.length extractedCitations)
       ++ " citations matched authorized objects")
      None None None None.

Definition normativeKeywords : list string :=
  ["rule is"; "court held"; "standard requires"; "test is"; "must"; "shall";
   "requires"; "prohibits"; "allows"; "permits"].

(** [/[.!?]+/] *)
Definition sentenceEnd : regex :=
  Plus (Class (fun c => Ascii.eqb c "." || Ascii.eqb c "!" || Ascii.eqb c "?")).

Definition isNormative (sentence : string) : bool :=
  let lower := toLowerCase sentence in
  existsb (fun kw => includes lower kw) normativeKeywords.

Definition extractRuleStatements (text : string) : list string :=
  let sentences := split sentenceEnd text in
  fold_left
    (fun rules sentence =>
       if isNormative sentence then (rules ++ [trim sentence])%list else rules)
    sentences [].

Definition computeSimilarity (text1 text2 : string) : float :=
  let words1 := split (Plus ws) (toLowerCase text1) in
  let words2 := split (Plus ws) (toLowerCase text2) in
  let allWords := dedupe (words1 ++ words2)%list in
  let vector1 :=
    map (fun word => of_nat (Controller.occurrences word words1)) allWords in
  let vector2 :=
    map (fun word => of_nat (Controller.occurrences word words2)) allWords in
  let dotProduct :=
    reduce (fun sum val i => sum + val * nth i vector2 PrimFloat.nan)%float
           vector1 0%float in
  let magnitude1 :=
    Math_sqrt (reduce (fun sum val _ => sum + val * val)%float vector1 0%float) in
  let magnitude2 :=
    Math_sqrt (reduce (fun sum val _ => sum + val * val)%float vector2 0%float) in
  if (magnitude1 =? 0)%float || (magnitude2 =? 0)%float then 0%float
  else (dotProduct / (magnitude1 * magnitude2))%float.

Definition SIMILARITY_THRESHOLD : float := 0.65%float.

(** [obj.rule_of_law || obj.rule || obj.holding || ''] *)
Definition authorizedRule (obj : BSetItem.t) : string :=
  or_else (BSetItem.rule_of_law obj)
    (or_else (BSetItem.rule obj) (or_else (BSetItem.holding obj) "")).

(** The inner loop of [verifyRuleMappings]: the best match of one rule. *)
Definition maxSimilarity (authorizedObjects : list BSetItem.t) (rule : string)
    : float :=
  fold_left
    (fun maxSimilarity obj =>
       if String.eqb (authorizedRule obj) EmptyString then maxSimilarity
       else
         let similarity := computeSimilarity rule (authorizedRule obj) in
         Math_max maxSimilarity similarity)
    authorizedObjects 0%float.

Definition verifyRuleMappings (generatedText : string)
    (authorizedObjects : list BSetItem.t) : ValidationCheck.t :=
  let extractedRules := extractRuleStatements generatedText in
  let result :=
    fold_left
      (fun (acc : list string * float) rule =>
         let best := maxSimilarity authorizedObjects rule in
         if (best <? SIMILARITY_THRESHOLD)%float
         then ((fst acc ++ [rule])%list, Math_min (snd acc) best)
         else acc)
      extractedRules ([], 1.0%float) in
  let unmappedRules := fst result in
  let lowestSimilarity := snd result in
  if 0 <? List.length unmappedRules then
    ValidationCheck.mk rule_to_field_mapping FAIL
      (show_nat (List.length unmappedRules)
       ++ " rule statement(s) did not map to authorized rule fields")
      (hd_error unmappedRules) (Some lowestSimilarity)
      (Some SIMILARITY_THRESHOLD) None
  else
    ValidationCheck.mk rule_to_field_mapping PASS
      ("All " ++ show_nat (List.length extractedRules)
       ++ " rule statements mapped to authorized fields")
      None None None None.

(** [typeof content === 'string' ? content
      : content.map(c => c.text || '').join(' ')] *)
Definition contentText (c : ConstraintObject.t) : string :=
  match ConstraintObject.content c with
  | Text s => s
  | Segments segs =>
      join " " (map (fun seg => or_else (ContentSegment.text seg) "") segs)
  end.

(** The words of a constraint that are longer than three characters. *)
Definition keywords (content : string) : list string :=
  filter (fun w => 3 <? String.length w)
    (split (Plus ws) (replace not_word_or_space " " (toLowerCase content))).

Definition verifyConstraintCompliance (generatedText : string)
    (context : AuthorizedContext.t) : ValidationCheck.t :=
  let elementConstraints :=
    filter ConstraintObject.is_element_factor
      (AuthorizedContext.constraint_objects context) in
  let missingElements :=
    fold_left
      (fun missing constraint =>
         let content := contentText constraint in
         let kws := keywords content in
         let textLower := toLowerCase generatedText in
         let hasKeyword := existsb (fun kw => includes textLower kw) kws in
         if negb hasKeyword && (0 <? List.length kws)
         then (missing ++ [content])%list else missing)
      elementConstraints [] in
  if 0 <? List.length missingElements then
    ValidationCheck.mk constraint_compliance FAIL
      (show_nat (List.length missingElements)
       ++ " required element(s) not addressed")
      None None None (hd_error missingElements)
  else
    let testConstraints :=
      filter ConstraintObject.is_test_standard
        (AuthorizedContext.constraint_objects context) in
    let missingTests :=
      fold_left
        (fun missing constraint =>
           let content := contentText constraint in
           let kws := keywords content in
           let textLower := toLowerCase generatedText in
           let mentionsTest :=
             existsb (fun kw => includes textLower kw) (firstn 3 kws) in
           if negb mentionsTest && (0 <? List.length kws)
           then (missing ++ [content])%list else missing)
        testConstraints [] in
    if 0 <? List.length missingTests then
      ValidationCheck.mk constraint_compliance WARNING
        (show_nat (List.length missingTests)
         ++ " required test(s) may not be fully addressed")
        None None None None
    else
      ValidationCheck.mk constraint_compliance PASS
        "All required elements and tests appear to be addressed"
        None None None None.

Definition isCriticalCheck (checkType : CheckType) : bool :=
  check_type_eqb checkType citation_verification.

Definition validateGeneratedText (generatedText : string)
    (context : AuthorizedContext.t) : ValidationResult.t :=
  let citationCheck :=
    verifyCitations generatedText (AuthorizedContext.reasoning_objects context) in
  let ruleCheck :=
    verifyRuleMappings generatedText
      (AuthorizedContext.reasoning_objects context) in
  let constraintCheck := verifyConstraintCompliance generatedText context in
  let checks := [citationCheck; ruleCheck; constraintCheck] in
  let hasCriticalFailure :=
    existsb (fun c => status_eqb (ValidationCheck.status c) FAIL
                      && isCriticalCheck (ValidationCheck.check_type c)) checks in
  let hasMajorFailure :=
    existsb (fun c => status_eqb (ValidationCheck.status c) FAIL) checks in
  let hasWarning :=
    existsb (fun c => status_eqb (ValidationCheck.status c) WARNING) checks in
  let verdict : option Severity * option Action :=
    if hasCriticalFailure then (Some CRITICAL, Some REJECT)
    else if hasMajorFailure then (Some MAJOR, Some REGENERATE)
    else if hasWarning then (Some MINOR, Some CORRECT)
    else (None, None) in
  ValidationResult.mk
    (if hasMajorFailure || hasCriticalFailure then FAILED else PASSED)
    checks (fst verdict) (snd verdict).

End Validation.

(* ================================================================= *)
(** ** The generation route ([src/app/api/generate/route.ts]) *)

Module Route.
Import JS Controller Validation.

Definition MAX_ITERATIONS : nat := 3.

(** One answer of the text-completion collaborator: the text blocks of the
    response joined, or a thrown error. *)
Inductive Reply : Type :=
| Completion (text : string)
| Failure (message : string).

(** What [POST] sends back. *)
Inductive HttpResponse : Type :=
| Ok200 (response : GenerationResponse.t)
| BadRequest400 (error : string)
| NotFound404 (error : string) (context : AuthorizedContext.t)
| ServerError500 (error details : string).

(** The variables that the loop of [POST] assigns.  [iterations] is also
    the number of collaborator calls made so far: the loop increments it
    immediately before each call and nowhere else. *)
Record LoopState : Type := mkLoop {
  iterations : nat;
  generatedText : string;
  validationReport : option ValidationResult.t;
  status : GenerationStatus
}.

Inductive Step : Type :=
| Next (st : LoopState)       (* falls through to the loop test *)
| Break (st : LoopState)
| Throw (message : string).

Definition severity_is (s : Severity) (r : ValidationResult.t) : bool :=
  match ValidationResult.severity r, s with
  | Some MINOR, MINOR | Some MAJOR, MAJOR | Some CRITICAL, CRITICAL => true
  | _, _ => false
  end.

Definition passed (r : ValidationResult.t) : bool :=
  match ValidationResult.overall_status r with
  | PASSED => true
  | FAILED => false
  end.

Section WithCollaborator.

(** [anthropic n] is the collaborator's answer to the [n]-th call of this
    request.  The prompt only flows into that call, so the instruction
    text and its feedback block are not threaded through the model. *)
Variable anthropic : nat -> Reply.

Variable max_iterations : nat.
Variable context : AuthorizedContext.t.

(** The body of [while (iterations < max_iterations)]. *)
Definition loopBody (st : LoopState) : Step :=
  let iterations := S (iterations st) in
  match anthropic iterations with
  | Failure message => Throw message
  | Completion generatedText =>
      let validationReport := validateGeneratedText generatedText context in
      let st' := mkLoop iterations generatedText (Some validationReport) in
      if passed validationReport then Break (st' validated)
      else if severity_is CRITICAL validationReport then Break (st' rejected)
      else if severity_is MINOR validationReport then Break (st' flagged)
      else if iterations <? max_iterations then Next (st' (status st))
      else Next (st' flagged)
  end.

Fixpoint generationLoop (fuel : nat) (st : LoopState) : outcome LoopState :=
  if iterations st <? max_iterations then
    match fuel with
    | O => OutOfFuel
    | S fuel' =>
        match loopBody st with
        | Next st' => generationLoop fuel' st'
        | Break st' => Returned st'
        | Throw message => Thrown message
        end
    end
  else Returned st.

Definition initialState : LoopState := mkLoop 0 "" None rejected.

End WithCollaborator.

Section WithNotesParser.

Variable parseNotesForConstraints :
  string -> list string -> list ConstraintObject.t.
Variable anthropic : nat -> Reply.

(** [POST]; [None] when the path computation is still running after
    [fuel] steps. *)
Definition POST (fuel : nat) (body : GenerationRequest.t)
    : option HttpResponse :=
  let max_iterations :=
    match GenerationRequest.max_iterations body with
    | Some n => n
    | None => MAX_ITERATIONS
    end in
  match GenerationRequest.bset_file body with
  | None => Some (BadRequest400 "Missing required fields: query and bset_file")
  | Some bset_file =>
      if negb (truthy (GenerationRequest.query body)) then
        Some (BadRequest400 "Missing required fields: query and bset_file")
      else
        let query := or_else (GenerationRequest.query body) "" in
        match processQuery parseNotesForConstraints fuel bset_file query
                (GenerationRequest.target_node_id body) with
        | OutOfFuel => None
        | Thrown message => Some (ServerError500 "Internal server error" message)
        | Returned context =>
            if List.length (AuthorizedContext.reasoning_objects context) =? 0
            then Some (NotFound404
                         "No authorized reasoning objects found for this query"
                         context)
            else
              match generationLoop anthropic max_iterations context
                      max_iterations initialState with
              | OutOfFuel => None
              | Thrown message =>
                  Some (ServerError500 "Internal server error" message)
              | Returned st =>
                  Some (Ok200 (GenerationResponse.mk (generatedText st)
                                 (validationReport st) (status st) context
                                 (iterations st)))
              end
        end
  end.

End WithNotesParser.

End Route.

(* ================================================================= *)
(** ** The instruction compiler and the validation feedback
    ([generateStructuredInstructions] of [src/lib/controller.ts],
    [generateConstraintAdjustments] of [src/lib/validation.ts] and the
    prompt assembly of [src/app/api/generate/route.ts]) *)

Module Prompt.
Import JS Controller Validation.

(** The line feed and the double quote of the source's string literals. *)
Definition nl : string := String (ascii_of_nat 10) EmptyString.
Definition dq : string := String (ascii_of_nat 34) EmptyString.

(** [`${x}`] for an optional string: an absent value prints [undefined]. *)
Definition show_opt (x : option string) : string :=
  match x with
  | Some s => s
  | None => "undefined"
  end.

(** [`${c.content}`]: a string prints as it is; an array of segments
    prints its elements, each an object, separated by commas. *)
Definition show_content (c : ConstraintObject.t) : string :=
  match ConstraintObject.content c with
  | Text s => s
  | Segments segs => join "," (map (fun _ => "[object Object]") segs)
  end.

(** [if (x) instructions += `    Label: ${x}\n`] *)
Definition labelled (label : string) (x : option string) : string :=
  if truthy x then "    " ++ label ++ ": " ++ show_opt x ++ nl else "".

Section WithItemFields.

(** The fields [type], [facts] and [question] of an item, which the item
    record above does not carry, are read through these accessors. *)
Variables item_type item_facts item_question : BSetItem.t -> option string.

(** The lines that the [forEach] over the authorized items adds for one
    item. *)
Definition itemBlock (obj : BSetItem.t) (idx : nat) : string :=
  "[" ++ show_nat (idx + 1) ++ "] " ++ show_opt (BSetItem.name obj) ++ nl
  ++ labelled "Type" (item_type obj)
  ++ labelled "Citation" (BSetItem.citation obj)
  ++ labelled "Rule of Law" (BSetItem.rule_of_law obj)
  ++ labelled "Holding" (BSetItem.holding obj)
  ++ labelled "Facts" (item_facts obj)
  ++ labelled "Question" (item_question obj)
  ++ (if truthy (BSetItem.notes obj)
         && negb (String.eqb (trim (or_else (BSetItem.notes obj) "")) "")
      then "    User Notes: " ++ show_opt (BSetItem.notes obj) ++ nl else "")
  ++ nl.

Definition generateStructuredInstructions (context : AuthorizedContext.t)
    (query : string) : string :=
  let target_node := AuthorizedContext.target_node context in
  let reasoning_objects := AuthorizedContext.reasoning_objects context in
  let constraint_objects := AuthorizedContext.constraint_objects context in
  let instructions :=
    "You are goldilex, a constrained legal reasoning assistant. You ONLY use information from the provided authorized context - you never add outside knowledge or make things up." ++ nl ++ nl in
  let instructions := instructions ++ "PERSONALITY:" ++ nl in
  let instructions := instructions
    ++ "- Always refer to yourself as " ++ dq ++ "goldilex" ++ dq
    ++ " or use " ++ dq ++ "I" ++ dq ++ " statements (e.g., "
    ++ dq ++ "I found..." ++ dq ++ " " ++ dq ++ "I analyzed..." ++ dq ++ ")"
    ++ nl in
  let instructions := instructions
    ++ "- Be clear, professional, and helpful" ++ nl in
  let instructions := instructions
    ++ "- Be confident about what's in your knowledge base, but never invent information" ++ nl ++ nl in
  let instructions := instructions
    ++ "ANALYTICAL DOMAIN: " ++ TaxonomyNode.title target_node ++ nl in
  let instructions := instructions ++ "USER QUERY: " ++ query ++ nl ++ nl in
  let instructions := instructions
    ++ "CRITICAL CONSTRAINTS (NEVER VIOLATE THESE):" ++ nl in
  let instructions := instructions
    ++ "1. I MUST ONLY cite cases and authorities provided in the authorized context below." ++ nl in
  let instructions := instructions
    ++ "2. I MUST NOT cite any cases, statutes, or authorities not explicitly listed." ++ nl in
  let instructions := instructions
    ++ "3. Every legal rule or holding I state MUST map to a rule_of_law field from an authorized case." ++ nl in
  let instructions := instructions
    ++ "4. I will use proper legal citation format: Case Name, Citation (Year)." ++ nl in
  let instructions := instructions
    ++ "5. If the authorized context doesn't contain enough information to fully answer the query, I will say so clearly." ++ nl in
  let instructions := instructions
    ++ "6. All metadata in the items (facts, holdings, notes, questions, etc.) should be understood literally as the user's content." ++ nl in
  let instructions := instructions
    ++ "7. The taxonomy_path and heading_id indicate which heading/subheading the authority belongs to." ++ nl ++ nl in
  let tests := filter ConstraintObject.is_test_standard constraint_objects in
  let instructions :=
    if 0 <? List.length tests then
      reduce (fun instructions test idx =>
                instructions ++ "Test " ++ show_nat (idx + 1) ++ ": "
                ++ show_content test ++ nl)
        tests (instructions ++ "REQUIRED ANALYTICAL FRAMEWORK:" ++ nl)
      ++ nl
    else instructions in
  let elements := filter ConstraintObject.is_element_factor constraint_objects in
  let instructions :=
    if 0 <? List.length elements then
      reduce (fun instructions elem idx =>
                instructions ++ show_nat (idx + 1) ++ ". "
                ++ show_content elem ++ nl)
        elements (instructions ++ "REQUIRED ELEMENTS TO ADDRESS:" ++ nl)
      ++ nl
    else instructions in
  let instructions :=
    if 0 <? List.length reasoning_objects then
      reduce (fun instructions obj idx => instructions ++ itemBlock obj idx)
        reasoning_objects
        (instructions
         ++ "AUTHORIZED CASES AND AUTHORITIES (you may ONLY cite from this list - "
         ++ show_nat (List.length reasoning_objects) ++ " total):" ++ nl ++ nl)
    else instructions in
  instructions ++ nl
  ++ "Provide your analysis addressing the query using ONLY the authorized cases listed above."
  ++ nl.

End WithItemFields.

(** What one failed check contributes to the adjustments. *)
Definition adjustmentsOf (check : ValidationCheck.t) : list string :=
  match ValidationCheck.status check with
  | FAIL =>
      match ValidationCheck.check_type check with
      | citation_verification =>
          ["CRITICAL: Only cite cases explicitly listed in the authorized context. Do not invent or infer additional cases."]
      | rule_to_field_mapping =>
          "Ensure every legal rule directly quotes or closely paraphrases the rule_of_law field from an authorized case."
          :: (if truthy (ValidationCheck.failed_assertion check)
              then ["The assertion " ++ dq
                    ++ show_opt (ValidationCheck.failed_assertion check) ++ dq
                    ++ " did not map to any authorized rule. Revise to use exact language from case rule_of_law fields."]
              else [])
      | constraint_compliance =>
          if truthy (ValidationCheck.missing_element check)
          then ["Address the following required element: " ++ dq
                ++ show_opt (ValidationCheck.missing_element check) ++ dq]
          else []
      | schema_conformance => []
      end
  | _ => []
  end.

Definition generateConstraintAdjustments (validationResult : ValidationResult.t)
    (context : AuthorizedContext.t) : list string :=
  fold_left (fun adjustments check => (adjustments ++ adjustmentsOf check)%list)
    (ValidationResult.validation_checks validationResult) [].


End Prompt.

(* ================================================================= *)
(** ** Vocabulary of the properties

    The notions in which the properties below are stated, and the sample
    inputs on which they are exercised. *)

Local Open Scope list_scope.

Module Vocabulary.
Import JS Controller Validation Route.

(** *** Regular expressions and numbers *)

(** A regex every match of which consumes at least one character. *)
Fixpoint consuming (r : regex) : bool :=
  match r with
  | Class _ => true
  | Seq r1 r2 => consuming r1 || consuming r2
  | Star _ => false
  | Group _ r1 => consuming r1
  end.

(** Composition of two comparisons, none of which is [Gt]. *)
Definition then_cmp (c1 c2 : comparison) : comparison :=
  match c1 with Eq => c2 | _ => c1 end.

(** *** Retrieval *)

(** The two kinds of match, in the words of the specification: the item's
    path equals the query path element for element, or properly extends it. *)
Fixpoint startsWith (prefix l : list string) : bool :=
  match prefix, l with
  | [], _ => true
  | x :: prefix', y :: l' => String.eqb x y && startsWith prefix' l'
  | _ :: _, [] => false
  end.

Definition exactMatch (path : list string) (item : BSetItem.t) : bool :=
  if list_eq_dec string_dec (BSetItem.taxonomy_path item) path
  then true else false.

Definition inheritedMatch (path : list string) (item : BSetItem.t) : bool :=
  negb (exactMatch path item)
  && startsWith path (BSetItem.taxonomy_path item).

(** *** Citations *)

(** [hay] contains [needle] as a contiguous substring. *)
Definition contains (hay needle : string) : Prop :=
  exists before rest, hay = (before ++ needle ++ rest)%string.






(** *** Rule mapping *)

(** A rule statement whose best match is strictly below the threshold. *)
Definition unmapped (objs : list BSetItem.t) (rule : string) : bool :=
  (maxSimilarity objs rule <? SIMILARITY_THRESHOLD)%float.

(** The running minimum kept by the loop, seeded with 1.0. *)
Definition runningMin (values : list float) : float :=
  fold_left Math_min values 1.0%float.

(** *** Constraint compliance *)

(** A word of a constraint occurs in the text, case-insensitively. *)
Definition present (text kw : string) : bool := includes (toLowerCase text) kw.

(** A required element is missing: it has content words longer than three
    characters and none of them occurs in the text. *)
Definition elementMissing (text : string) (c : ConstraintObject.t) : bool :=
  let kws := keywords (contentText c) in
  negb (existsb (present text) kws) && (0 <? List.length kws).

(** A required test is not mentioned: it has such words and none of the
    first three occurs in the text. *)
Definition testMissing (text : string) (c : ConstraintObject.t) : bool :=
  let kws := keywords (contentText c) in
  negb (existsb (present text) (firstn 3 kws)) && (0 <? List.length kws).

Definition elementConstraints (context : AuthorizedContext.t) :=
  filter ConstraintObject.is_element_factor
    (AuthorizedContext.constraint_objects context).

Definition testConstraints (context : AuthorizedContext.t) :=
  filter ConstraintObject.is_test_standard
    (AuthorizedContext.constraint_objects context).

(** *** Taxonomy paths *)

Definition lookup (taxonomy : list TaxonomyNode.t) (id : string)
    : option TaxonomyNode.t :=
  find (fun n => String.eqb (TaxonomyNode.id n) id) taxonomy.

(** [n] refers to a parent by the identifier [p]. *)
Definition namesParent (n : TaxonomyNode.t) (p : string) : Prop :=
  TaxonomyNode.parent_id n = Some p /\ p <> EmptyString.

(** [n] has no parent reference: the walk stops there by design. *)
Definition parentless (n : TaxonomyNode.t) : Prop :=
  truthy (TaxonomyNode.parent_id n) = false.

(** [n] refers to a parent that is not a node of the taxonomy. *)
Definition dangling (taxonomy : list TaxonomyNode.t) (n : TaxonomyNode.t)
    : Prop :=
  exists p, namesParent n p /\ lookup taxonomy p = None.

(** [climbsTo taxonomy n ids top]: following parent links from [n] through
    the taxonomy reaches [top]; [ids] are the identifiers met, [top] first
    and [n] last. *)
Inductive climbsTo (taxonomy : list TaxonomyNode.t)
    : TaxonomyNode.t -> list string -> TaxonomyNode.t -> Prop :=
| climbs_stop n : climbsTo taxonomy n [TaxonomyNode.id n] n
| climbs_step n p parent ids top :
    namesParent n p ->
    lookup taxonomy p = Some parent ->
    climbsTo taxonomy parent ids top ->
    climbsTo taxonomy n (ids ++ [TaxonomyNode.id n]) top.

(** *** Sample inputs *)

Definition rootNode : TaxonomyNode.t := TaxonomyNode.mk "root" "Search" None.

Definition searchNode : TaxonomyNode.t :=
  TaxonomyNode.mk "search" "Was there a search?" (Some "root").

Definition roe : BSetItem.t :=
  BSetItem.mk "case-1" (Some "Roe v. Wade") (Some "410 U.S. 113 (1973)")
    None None None None ["root"].

Definition unnamed : BSetItem.t :=
  BSetItem.mk "case-2" None (Some "392 U.S. 1") None None None None ["root"].

Definition searchCase : BSetItem.t :=
  BSetItem.mk "case-3" (Some "Katz v. United States") (Some "389 U.S. 347")
    None None None None ["search"].

Definition shortTest : ConstraintObject.t :=
  ConstraintObject.mk ["root"] test_standard (Text "See ch. 3") true false false.

Definition shortTestContext : AuthorizedContext.t :=
  AuthorizedContext.mk [roe] [shortTest] ["root"] rootNode.

Definition suspicionTest : ConstraintObject.t :=
  ConstraintObject.mk ["root"] test_standard
    (Text "reasonable suspicion standard") true false false.

Definition suspicionContext : AuthorizedContext.t :=
  AuthorizedContext.mk [roe] [suspicionTest] ["root"] rootNode.

Definition orphan : TaxonomyNode.t :=
  TaxonomyNode.mk "search" "Search" (Some "ghost").

Definition orphanFile : BSetFile.t := BSetFile.mk [searchCase] [orphan].

Definition orphanRequest : GenerationRequest.t :=
  GenerationRequest.mk (Some "search") (Some orphanFile) None None.

(** A notes parser that finds no directive. *)
Definition noConstraints (notes : string) (path : list string)
    : list ConstraintObject.t := [].

(** *** Target selection *)

(** The significant terms of a query, as [determineTargetNode] counts them. *)
Definition queryTerms (query : string) : list string :=
  filter (fun term => (2 <? String.length term) && negb (isStopWord term))
    (split (Plus ws) (replace not_word_or_space " " (toLowerCase query))).

(** The score of a node for a query. *)
Definition score (query : string) (node : TaxonomyNode.t) : float :=
  computeCosineSimilarity query (toLowerCase (TaxonomyNode.title node)).

(** The body of the scoring loop of [determineTargetNode]. *)
Definition pick (query : string) (acc : option TaxonomyNode.t * float)
    (node : TaxonomyNode.t) : option TaxonomyNode.t * float :=
  let nodeText := toLowerCase (TaxonomyNode.title node) in
  let score := computeCosineSimilarity query nodeText in
  if (snd acc <? score)%float then (Some node, score) else acc.

(** The state of the scoring loop after the nodes [seen]: no node seen
    scores above the threshold, or the best node so far is the first of
    highest score. *)
Inductive bestSoFar (query : string) (threshold : float)
    (seen : list TaxonomyNode.t) : option TaxonomyNode.t * float -> Prop :=
| best_none :
    (forall m, In m seen -> (threshold <? score query m)%float = false) ->
    bestSoFar query threshold seen (None, threshold)
| best_some before node after :
    seen = before ++ node :: after ->
    (threshold <? score query node)%float = true ->
    (forall m, In m before ->
       (score query node <=? score query m)%float = false) ->
    (forall m, In m after ->
       (score query node <? score query m)%float = false) ->
    bestSoFar query threshold seen (Some node, score query node).

(** *** The generation loop *)

(** The status that the loop gives to the report of the last reply. *)
Definition statusOf (report : ValidationResult.t) : GenerationStatus :=
  if passed report then validated
  else if severity_is CRITICAL report then rejected
  else flagged.

(** *** Words of a regular expression *)

(** The words that a regex matches. *)
Inductive lang : regex -> string -> Prop :=
| lang_class p a : p a = true -> lang (Class p) (String a EmptyString)
| lang_seq r1 r2 w1 w2 :
    lang r1 w1 -> lang r2 w2 -> lang (Seq r1 r2) (w1 ++ w2)%string
| lang_star_stop r : lang (Star r) EmptyString
| lang_star_more r w1 w2 :
    lang r w1 -> lang (Star r) w2 -> lang (Star r) (w1 ++ w2)%string
| lang_group n r w : lang r w -> lang (Group n r) w.

(** *** Text *)

(** The text that a [forEach] with index appends, from index [i] on. *)
Fixpoint concatFrom {A : Type} (f : A -> nat -> string) (i : nat)
    (xs : list A) : string :=
  match xs with
  | [] => EmptyString
  | x :: rest => (f x i ++ concatFrom f (S i) rest)%string
  end.

(** The characters of [s] that satisfy [p], in order. *)
Fixpoint keepChars (p : ascii -> bool) (s : string) : string :=
  match s with
  | EmptyString => EmptyString
  | String a t => if p a then String a (keepChars p t) else keepChars p t
  end.

(** [s] with every run of white space replaced by one space; [inRun]
    tells that the preceding character was white space. *)
Fixpoint collapseFrom (inRun : bool) (s : string) : string :=
  match s with
  | EmptyString => EmptyString
  | String a t =>
      if is_space a
      then if inRun then collapseFrom true t
           else String " " (collapseFrom true t)
      else String a (collapseFrom false t)
  end.

(** Every character of [s] satisfies [p]. *)
Fixpoint allChars (p : ascii -> bool) (s : string) : bool :=
  match s with
  | EmptyString => true
  | String a t => p a && allChars p t
  end.

(** The white space of [s] is made of single spaces. *)
Fixpoint singleSpaced (afterSpace : bool) (s : string) : bool :=
  match s with
  | EmptyString => true
  | String a t =>
      if is_space a
      then Ascii.eqb a " " && negb afterSpace && singleSpaced true t
      else singleSpaced false t
  end.

(** The characters that [normalizeCitation] keeps, and those that
    [toLowerCase] leaves as they are. *)
Definition wordOrSpace (c : ascii) : bool := is_word c || is_space c.
Definition lowerFixed (c : ascii) : bool := Ascii.eqb (lower_char c) c.

(** *** More sample inputs *)

Definition cycleA : TaxonomyNode.t := TaxonomyNode.mk "a" "Arrest" (Some "b").
Definition cycleB : TaxonomyNode.t := TaxonomyNode.mk "b" "Bail" (Some "a").

Definition wiretapCase : BSetItem.t :=
  BSetItem.mk "case-4" (Some "United States v. White") (Some "401 U.S. 745")
    None None None None ["root"; "search"].

End Vocabulary.

(* ================================================================= *)
(** ** General lemmas on loops that push into an array *)

Section PushLoops.
Context {A B : Type}.

(** A [for] loop that pushes [f x] for the elements passing [keep] builds
    the filtered, mapped list, in source order. *)
Lemma fold_push_filter (keep : A -> bool) (f : A -> B) (xs : list A)
    (acc : list B) :
  fold_left (fun acc x => if keep x then acc ++ [f x] else acc) xs acc
  = acc ++ map f (filter keep xs).
Proof.
  revert acc; induction xs as [|x xs IH]; intros acc; simpl.
  - now rewrite app_nil_r.
  - rewrite IH. destruct (keep x); simpl; [|reflexivity].
    now rewrite <- app_assoc.
Qed.

Lemma filter_nonempty_iff (keep : A -> bool) (xs : list A) :
  filter keep xs <> [] <-> exists x, In x xs /\ keep x = true.
Proof.
  split.
  - intros H. destruct (filter keep xs) as [|y l] eqn:E; [congruence|].
    assert (Hy : In y (filter keep xs)) by (rewrite E; now left).
    apply filter_In in Hy. now exists y.
  - intros (x & Hin & Hk) E.
    assert (Hx : In x (filter keep xs)) by (apply filter_In; auto).
    now rewrite E in Hx.
Qed.

End PushLoops.

(* ================================================================= *)
(** ** Properties of the matcher: progress and adequacy of the fuel *)

Module RegexFacts.
Import JS Validation Vocabulary.

(** A successful match hands to its continuation a suffix that is not
    longer than the input, and shorter when the regex is consuming. *)
Lemma rmatch_progress (r : regex) :
  forall s c k res,
    rmatch r s c k = Some res ->
    exists s' c', k s' c' = Some res
      /\ String.length s' <= String.length s
      /\ (consuming r = true -> String.length s' < String.length s).
Proof.
  induction r as [p | r1 IH1 r2 IH2 | r1 IH1 | n r1 IH1]; intros s c k res H.
  - simpl in H. destruct s as [|a t]; [discriminate|].
    destruct (p a); [|discriminate].
    exists t, c. simpl. repeat split; auto; lia.
  - simpl in H. apply IH1 in H as (s1 & c1 & H & L1 & P1).
    apply IH2 in H as (s2 & c2 & H & L2 & P2).
    exists s2, c2. repeat split; [exact H | lia|].
    simpl. intros C. apply orb_true_iff in C as [C | C];
      [specialize (P1 C) | specialize (P2 C)]; lia.
  - simpl in H. revert H. generalize (String.length s) at 1. intros n.
    revert s c. induction n as [|n IHn]; intros s c H.
    + exists s, c. repeat split; auto. discriminate.
    + match type of H with
      | match ?m with _ => _ end = _ => destruct m as [res'|] eqn:E
      end.
      * injection H as ->. apply IH1 in E as (s1 & c1 & E & L1 & _).
        destruct (String.length s1 <? String.length s) eqn:Lt; [|discriminate].
        apply Nat.ltb_lt in Lt.
        apply IHn in E as (s' & c' & E & L & _).
        exists s', c'. repeat split; [exact E | lia | discriminate].
      * exists s, c. repeat split; auto. discriminate.
  - simpl in H. apply IH1 in H as (s1 & c1 & H & L & P).
    eexists _, _. repeat split; [exact H | exact L | exact P].
Qed.

Lemma match_here_progress (r : regex) (s rest : string) (c : captures) :
  match_here r s = Some (rest, c) ->
  String.length rest <= String.length s
  /\ (consuming r = true -> String.length rest < String.length s).
Proof.
  unfold match_here. intros H.
  apply rmatch_progress in H as (s' & c' & H & L & P).
  injection H as -> ->. auto.
Qed.

Lemma exec_progress (r : regex) (s : string) (m : rx_match) :
  consuming r = true -> exec r s = Some m ->
  String.length (after m) < String.length s.
Proof.
  intros C. induction s as [|a t IH]; simpl.
  - destruct (match_here r "") as [[rest c]|] eqn:E; [|discriminate].
    apply match_here_progress in E as [_ E]. specialize (E C). simpl in E. lia.
  - destruct (match_here r (String a t)) as [[rest c]|] eqn:E.
    + intros H. injection H as <-. simpl.
      apply match_here_progress in E as [_ E]. exact (E C).
    + intros H. apply IH in H. lia.
Qed.

(** The fuel given to the [exec] loop is enough: more fuel finds the same
    matches. *)
Lemma exec_loop_fuel (r : regex) :
  consuming r = true ->
  forall fuel fuel' s,
    String.length s < fuel -> String.length s < fuel' ->
    exec_loop fuel r s = exec_loop fuel' r s.
Proof.
  intros C. induction fuel as [|fuel IH]; intros fuel' s H H'; [lia|].
  destruct fuel' as [|fuel']; [lia|]. simpl.
  destruct (exec r s) as [m|] eqn:E; [|reflexivity].
  f_equal. pose proof (exec_progress r s m C E). apply IH; lia.
Qed.

Lemma split_loop_fuel (r : regex) :
  consuming r = true ->
  forall fuel fuel' piece s,
    String.length s < fuel -> String.length s < fuel' ->
    split_loop fuel r piece s = split_loop fuel' r piece s.
Proof.
  intros C. induction fuel as [|fuel IH]; intros fuel' piece s H H'; [lia|].
  destruct fuel' as [|fuel']; [lia|]. simpl.
  destruct s as [|a t]; [reflexivity|]. simpl in H, H'.
  destruct (match_here r (String a t)) as [[rest c]|] eqn:E.
  - apply match_here_progress in E as [_ E]. specialize (E C). simpl in E.
    assert (N : (String.length rest =? S (String.length t)) = false)
      by (apply Nat.eqb_neq; lia).
    simpl String.length. rewrite N. simpl. f_equal. apply IH; lia.
  - apply IH; lia.
Qed.

Lemma replace_loop_fuel (r : regex) :
  consuming r = true ->
  forall fuel fuel' rep s,
    String.length s < fuel -> String.length s < fuel' ->
    replace_loop fuel r rep s = replace_loop fuel' r rep s.
Proof.
  intros C. induction fuel as [|fuel IH]; intros fuel' rep s H H'; [lia|].
  destruct fuel' as [|fuel']; [lia|]. simpl.
  destruct (match_here r s) as [[rest c]|] eqn:E.
  - apply match_here_progress in E as [_ E]. specialize (E C).
    apply Nat.ltb_lt in E as E'. rewrite E'. f_equal. apply IH; lia.
  - destruct s as [|a t]; [reflexivity|]. simpl in H, H'. f_equal.
    apply IH; lia.
Qed.

(** With a consuming regex, the fuel that [exec_all], [split] and
    [replace] give to their loops is never spent: any larger amount
    computes the same result. *)
Lemma exec_all_fuel (r : regex) (s : string) (fuel : nat) :
  consuming r = true -> String.length s < fuel ->
  exec_loop fuel r s = exec_all r s.
Proof.
  intros C H. unfold exec_all. apply exec_loop_fuel; auto.
Qed.

Lemma split_fuel (r : regex) (a : ascii) (t : string) (fuel : nat) :
  consuming r = true -> String.length (String a t) < fuel ->
  split_loop fuel r EmptyString (String a t) = split r (String a t).
Proof.
  intros C H. unfold split. apply split_loop_fuel; auto. lia.
Qed.

Lemma replace_fuel (r : regex) (rep s : string) (fuel : nat) :
  consuming r = true -> String.length s < fuel ->
  replace_loop fuel r rep s = replace r rep s.
Proof.
  intros C H. unfold replace. apply replace_loop_fuel; auto.
Qed.

(** The patterns of the source all consume input. *)
Lemma patterns_consuming :
  consuming pattern1 = true /\ consuming pattern2 = true
  /\ consuming sentenceEnd = true /\ consuming (Plus ws) = true
  /\ consuming not_word_or_space = true.
Proof. repeat split. Qed.

End RegexFacts.

(* ================================================================= *)
(** ** Properties of the authority retriever *)

Module RetrieverFacts.
Import JS Controller.
Import Vocabulary.

Lemma startsWith_spec (prefix l : list string) :
  startsWith prefix l = true <-> exists rest, l = (prefix ++ rest)%list.
Proof.
  revert l; induction prefix as [|x p IH]; intros l; simpl.
  - split; [now exists l | reflexivity].
  - destruct l as [|y l].
    + split; [discriminate | intros [rest H]; discriminate].
    + rewrite andb_true_iff, String.eqb_eq, IH. split.
      * intros [-> [rest ->]]. now exists rest.
      * intros [rest H]. injection H as -> ->. split; [reflexivity|now exists rest].
Qed.

Lemma startsWith_length (prefix l : list string) :
  startsWith prefix l = true -> List.length prefix <= List.length l.
Proof.
  intros H. apply startsWith_spec in H as [rest ->].
  rewrite length_app. lia.
Qed.

Lemma startsWith_same_length (prefix l : list string) :
  List.length prefix = List.length l ->
  startsWith prefix l = true <-> prefix = l.
Proof.
  intros Hlen. rewrite startsWith_spec. split.
  - intros [rest ->]. rewrite length_app in Hlen.
    destruct rest; [now rewrite app_nil_r | simpl in Hlen; lia].
  - intros ->. exists []. now rewrite app_nil_r.
Qed.

(** The indexed [every] of the source walks the other array in step. *)
Lemma every_from_startsWith (xs before l : list string) :
  every_from (same_at (before ++ l)) (List.length before) xs = startsWith xs l.
Proof.
  revert before l; induction xs as [|x xs IH]; intros before l; simpl.
  - reflexivity.
  - unfold same_at at 1.
    rewrite nth_error_app2, Nat.sub_diag by lia.
    destruct l as [|y l]; simpl; [reflexivity|].
    f_equal.
    specialize (IH (before ++ [y])%list l).
    rewrite <- app_assoc, length_app in IH. simpl in IH.
    now rewrite Nat.add_1_r in IH.
Qed.

Lemma every_startsWith (xs l : list string) :
  every_from (same_at l) 0 xs = startsWith xs l.
Proof. exact (every_from_startsWith xs [] l). Qed.

Lemma pathsMatch_spec (path1 path2 : list string) :
  pathsMatch path1 path2 = true <-> path1 = path2.
Proof.
  unfold pathsMatch.
  destruct (List.length path1 =? List.length path2) eqn:E; simpl.
  - apply Nat.eqb_eq in E.
    rewrite every_startsWith.
    now apply startsWith_same_length.
  - apply Nat.eqb_neq in E. split; [discriminate | intros ->; contradiction].
Qed.

Lemma isAnalyticalPathPrefixOfItem_spec (analyticalPath itemPath : list string) :
  isAnalyticalPathPrefixOfItem analyticalPath itemPath
  = startsWith analyticalPath itemPath.
Proof.
  unfold isAnalyticalPathPrefixOfItem.
  rewrite every_startsWith.
  destruct (List.length itemPath <? List.length analyticalPath) eqn:E;
    [|reflexivity].
  apply Nat.ltb_lt in E.
  destruct (startsWith analyticalPath itemPath) eqn:S; [|reflexivity].
  apply startsWith_length in S. lia.
Qed.

Lemma pathsMatch_exactMatch (path : list string) (item : BSetItem.t) :
  pathsMatch (BSetItem.taxonomy_path item) path = exactMatch path item.
Proof.
  unfold exactMatch.
  destruct (list_eq_dec string_dec (BSetItem.taxonomy_path item) path) as [E|E].
  - now apply pathsMatch_spec.
  - destruct (pathsMatch _ _) eqn:P; [|reflexivity].
    apply pathsMatch_spec in P. contradiction.
Qed.

(** The two buckets of the loop are two filters of the item list. *)
Lemma buckets_filter (path : list string) (items exact inherited : list BSetItem.t) :
  fold_left
    (fun (acc : list BSetItem.t * list BSetItem.t) item =>
       let itemPath := BSetItem.taxonomy_path item in
       if pathsMatch itemPath path
       then (fst acc ++ [item], snd acc)%list
       else if isAnalyticalPathPrefixOfItem path itemPath
       then (fst acc, snd acc ++ [item])%list
       else acc)
    items (exact, inherited)
  = ((exact ++ filter (exactMatch path) items)%list,
     (inherited ++ filter (inheritedMatch path) items)%list).
Proof.
  revert exact inherited; induction items as [|item items IH];
    intros exact inherited; simpl.
  - now rewrite !app_nil_r.
  - assert (Hinh : inheritedMatch path item
                   = negb (exactMatch path item)
                     && startsWith path (BSetItem.taxonomy_path item))
      by reflexivity.
    rewrite Hinh, pathsMatch_exactMatch, isAnalyticalPathPrefixOfItem_spec.
    destruct (exactMatch path item); simpl.
    + rewrite IH. now rewrite <- app_assoc.
    + destruct (startsWith path (BSetItem.taxonomy_path item)); simpl.
      * rewrite IH. now rewrite <- app_assoc.
      * apply IH.
Qed.

End RetrieverFacts.

(* ================================================================= *)
(** ** Properties of the aggregation rule *)

Module AggregationFacts.
Import JS Validation.

Lemma verifyCitations_check_type text objs :
  ValidationCheck.check_type (verifyCitations text objs) = citation_verification.
Proof.
  unfold verifyCitations. now destruct (0 <? _).
Qed.

Lemma verifyRuleMappings_check_type text objs :
  ValidationCheck.check_type (verifyRuleMappings text objs)
  = rule_to_field_mapping.
Proof.
  unfold verifyRuleMappings. now destruct (0 <? _).
Qed.

Lemma verifyConstraintCompliance_check_type text context :
  ValidationCheck.check_type (verifyConstraintCompliance text context)
  = constraint_compliance.
Proof.
  unfold verifyConstraintCompliance.
  destruct (0 <? _); [reflexivity|]. now destruct (0 <? _).
Qed.

(** The report as a function of the three statuses. *)
Lemma validate_by_cases text context :
  let c1 := verifyCitations text (AuthorizedContext.reasoning_objects context) in
  let c2 := verifyRuleMappings text (AuthorizedContext.reasoning_objects context) in
  let c3 := verifyConstraintCompliance text context in
  let s1 := ValidationCheck.status c1 in
  let s2 := ValidationCheck.status c2 in
  let s3 := ValidationCheck.status c3 in
  validateGeneratedText text context
  = let fails := status_eqb s1 FAIL || (status_eqb s2 FAIL || (status_eqb s3 FAIL || false)) in
    let warns := status_eqb s1 WARNING || (status_eqb s2 WARNING || (status_eqb s3 WARNING || false)) in
    ValidationResult.mk
      (if fails || status_eqb s1 FAIL then FAILED else PASSED)
      [c1; c2; c3]
      (if status_eqb s1 FAIL then Some CRITICAL
       else if fails then Some MAJOR else if warns then Some MINOR else None)
      (if status_eqb s1 FAIL then Some REJECT
       else if fails then Some REGENERATE else if warns then Some CORRECT
       else None).
Proof.
  intros c1 c2 c3 s1 s2 s3. subst s1 s2 s3 c1 c2 c3.
  unfold validateGeneratedText, isCriticalCheck. cbv zeta. cbn [existsb].
  rewrite verifyCitations_check_type, verifyRuleMappings_check_type,
    verifyConstraintCompliance_check_type.
  cbn [check_type_eqb]. rewrite !andb_true_r, !andb_false_r. cbn [orb].
  destruct (status_eqb (ValidationCheck.status (verifyCitations _ _)) FAIL);
    cbn [orb fst snd]; [reflexivity|].
  destruct (status_eqb _ FAIL || (status_eqb _ FAIL || false));
    cbn [orb fst snd]; [reflexivity|].
  now destruct (status_eqb _ WARNING || _).
Qed.

End AggregationFacts.

(* ================================================================= *)
(** ** Properties of the citation check *)

Module CitationFacts.
Import JS Validation.
Import Vocabulary.

Lemma prefix_spec (s1 s2 : string) :
  String.prefix s1 s2 = true <-> exists rest, s2 = (s1 ++ rest)%string.
Proof.
  revert s2; induction s1 as [|a s1 IH]; intros s2.
  - destruct s2; simpl; (split; [intros _; eexists; reflexivity | reflexivity]).
  - destruct s2 as [|b s2]; simpl.
    + split; [discriminate | intros [rest H]; discriminate].
    + destruct (ascii_dec a b) as [->|Hab].
      * rewrite IH. split; intros [rest H]; exists rest; [now rewrite H|].
        now injection H.
      * split; [discriminate | intros [rest H]]. injection H as H1 H2.
        congruence.
Qed.

Lemma includes_spec (hay needle : string) :
  includes hay needle = true <-> contains hay needle.
Proof.
  unfold contains. induction hay as [|c hay IH].
  - cbn [includes]. rewrite orb_false_r, prefix_spec. split.
    + intros [rest H]. now exists EmptyString, rest.
    + intros (before & rest & H). destruct before; [now exists rest|discriminate].
  - cbn [includes]. rewrite orb_true_iff, prefix_spec, IH. split.
    + intros [[rest H] | (before & rest & H)].
      * now exists EmptyString, rest.
      * exists (String c before), rest. simpl. now rewrite H.
    + intros (before & rest & H). destruct before as [|d before].
      * left. now exists rest.
      * right. injection H as _ H. now exists before, rest.
Qed.

(** The empty string is a substring of every string. *)
Lemma includes_empty (hay : string) : includes hay EmptyString = true.
Proof.
  apply includes_spec. exists EmptyString, hay. reflexivity.
Qed.

Lemma unauthorized_filter text objs :
  fold_left
    (fun unauthorized citation =>
       if negb (isAuthorized objs citation)
       then unauthorized ++ [citation] else unauthorized)
    (extractCitations text) []
  = filter (fun c => negb (isAuthorized objs c)) (extractCitations text).
Proof.
  rewrite (fold_push_filter (fun c => negb (isAuthorized objs c)) (fun c => c)).
  simpl. apply map_id.
Qed.

(** The verdict of the citation check as a function of the list of
    unauthorized citations. *)
Lemma verifyCitations_status text objs :
  ValidationCheck.status (verifyCitations text objs)
  = match filter (fun c => negb (isAuthorized objs c)) (extractCitations text) with
    | [] => PASS
    | _ :: _ => FAIL
    end.
Proof.
  unfold verifyCitations. rewrite unauthorized_filter.
  now destruct (filter _ _).
Qed.

Lemma verifyCitations_FAIL_iff text objs :
  ValidationCheck.status (verifyCitations text objs) = FAIL
  <-> exists c, In c (extractCitations text) /\ isAuthorized objs c = false.
Proof.
  rewrite verifyCitations_status.
  pose proof (filter_nonempty_iff (fun c => negb (isAuthorized objs c))
                (extractCitations text)) as H.
  setoid_rewrite negb_true_iff in H. rewrite <- H.
  destruct (filter _ _); split; congruence.
Qed.

Lemma verifyCitations_PASS_or_FAIL text objs :
  ValidationCheck.status (verifyCitations text objs) = PASS
  \/ ValidationCheck.status (verifyCitations text objs) = FAIL.
Proof.
  rewrite verifyCitations_status. destruct (filter _ _); auto.
Qed.


End CitationFacts.

(* ================================================================= *)
(** ** Properties of the rule-mapping check *)

Module RuleFacts.
Import JS Validation.
Import Vocabulary.

Lemma extractRuleStatements_filter text :
  extractRuleStatements text
  = map trim (filter isNormative (split sentenceEnd text)).
Proof.
  unfold extractRuleStatements.
  now rewrite (fold_push_filter isNormative trim).
Qed.

Lemma isNormative_spec sentence :
  isNormative sentence = true
  <-> exists kw, In kw normativeKeywords
                 /\ includes (toLowerCase sentence) kw = true.
Proof. unfold isNormative. apply existsb_exists. Qed.


Lemma ruleLoop_filter objs rules acc low :
  fold_left
    (fun (acc : list string * float) rule =>
       let best := maxSimilarity objs rule in
       if (best <? SIMILARITY_THRESHOLD)%float
       then (fst acc ++ [rule], Math_min (snd acc) best)
       else acc)
    rules (acc, low)
  = (acc ++ filter (unmapped objs) rules,
     fold_left Math_min (map (maxSimilarity objs) (filter (unmapped objs) rules))
       low).
Proof.
  revert acc low; induction rules as [|rule rules IH]; intros acc low; simpl.
  - now rewrite app_nil_r.
  - assert (Hu : unmapped objs rule
                 = (maxSimilarity objs rule <? SIMILARITY_THRESHOLD)%float)
      by reflexivity.
    rewrite Hu.
    destruct (maxSimilarity objs rule <? SIMILARITY_THRESHOLD)%float.
    + rewrite IH. cbn [fst snd map fold_left]. now rewrite <- app_assoc.
    + apply IH.
Qed.

(** The check as a function of the list of unmapped rule statements. *)
Lemma verifyRuleMappings_cases text objs :
  let failing := filter (unmapped objs) (extractRuleStatements text) in
  let check := verifyRuleMappings text objs in
  match failing with
  | [] =>
      ValidationCheck.status check = PASS
      /\ ValidationCheck.failed_assertion check = None
      /\ ValidationCheck.best_match_similarity check = None
      /\ ValidationCheck.threshold check = None
  | first :: _ =>
      ValidationCheck.status check = FAIL
      /\ ValidationCheck.failed_assertion check = Some first
      /\ ValidationCheck.best_match_similarity check
         = Some (runningMin (map (maxSimilarity objs) failing))
      /\ ValidationCheck.threshold check = Some 0.65%float
  end.
Proof.
  intros failing check. subst check. unfold verifyRuleMappings.
  rewrite ruleLoop_filter. cbn [fst snd app]. fold failing.
  destruct failing as [|first rest]; cbn; auto.
Qed.

Lemma authorizedRule_absent obj :
  truthy (BSetItem.rule_of_law obj) = false ->
  truthy (BSetItem.rule obj) = false ->
  truthy (BSetItem.holding obj) = false ->
  authorizedRule obj = EmptyString.
Proof.
  unfold authorizedRule, truthy, or_else.
  destruct (BSetItem.rule_of_law obj) as [a|], (BSetItem.rule obj) as [b|],
    (BSetItem.holding obj) as [c|]; intros H1 H2 H3;
    repeat match goal with
           | H : negb (String.eqb ?s EmptyString) = false |- _ =>
               apply negb_false_iff in H; rewrite H
           end; reflexivity.
Qed.

Lemma maxSimilarity_no_fields objs rule :
  (forall obj, In obj objs -> authorizedRule obj = EmptyString) ->
  maxSimilarity objs rule = 0%float.
Proof.
  unfold maxSimilarity. generalize 0%float.
  induction objs as [|obj objs IH]; intros acc H; simpl; [reflexivity|].
  rewrite (H obj (or_introl eq_refl)). simpl. apply IH.
  intros o Ho. apply H. now right.
Qed.

Lemma runningMin_zeros (values : list float) :
  values <> [] -> (forall v, In v values -> v = 0%float) ->
  runningMin values = 0%float.
Proof.
  assert (Hz : forall vs, (forall v, In v vs -> v = 0%float) ->
                          fold_left Math_min vs 0%float = 0%float).
  { induction vs as [|v vs IH]; intros H; simpl; [reflexivity|].
    rewrite (H v (or_introl eq_refl)).
    change (Math_min 0 0) with 0%float. apply IH.
    intros w Hw. apply H. now right. }
  destruct values as [|v vs]; [congruence|]. intros _ H.
  unfold runningMin. simpl. rewrite (H v (or_introl eq_refl)).
  change (Math_min 1 0) with 0%float. apply Hz.
  intros w Hw. apply H. now right.
Qed.

End RuleFacts.

(* ================================================================= *)
(** ** The order of JavaScript numbers *)

Module FloatOrder.
Import JS Vocabulary.

Ltac split_compares :=
  repeat match goal with
  | H : context [Z.compare ?a ?b] |- _ => destruct (Z.compare_spec a b)
  | |- context [Z.compare ?a ?b] => destruct (Z.compare_spec a b)
  | H : context [Pos.compare_cont Eq ?a ?b] |- _ =>
      change (Pos.compare_cont Eq a b) with (Pos.compare a b) in H;
      destruct (Pos.compare_spec a b)
  | |- context [Pos.compare_cont Eq ?a ?b] =>
      change (Pos.compare_cont Eq a b) with (Pos.compare a b);
      destruct (Pos.compare_spec a b)
  end.

Lemma SFcompare_refl (a : spec_float) :
  a <> S754_nan -> SFcompare a a = Some Eq.
Proof.
  destruct a as [s|s| |s m e]; simpl; intros H; try congruence.
  - now destruct s.
  - destruct s; rewrite Z.compare_refl;
      change (Pos.compare_cont Eq m m) with (Pos.compare m m);
      now rewrite Pos.compare_refl.
Qed.


Lemma SFcompare_trans (a b c : spec_float) (c1 c2 : comparison) :
  SFcompare a b = Some c1 -> SFcompare b c = Some c2 ->
  c1 <> Gt -> c2 <> Gt ->
  SFcompare a c = Some (then_cmp c1 c2).
Proof.
  destruct a as [sa|sa| |sa ma ea], b as [sb|sb| |sb mb eb],
           c as [sc|sc| |sc mc ec]; simpl; try discriminate;
    try (destruct sa); try (destruct sb); try (destruct sc); simpl;
    intros H1 H2 N1 N2; injection H1 as <-; injection H2 as <-;
    try reflexivity; try congruence;
    split_compares; simpl in *; subst; try congruence; try lia.
Qed.

(** Primitive floats. *)
Lemma eqb_compare (x y : float) :
  (x =? y)%float = true <-> SFcompare (Prim2SF x) (Prim2SF y) = Some Eq.
Proof.
  rewrite FloatAxioms.eqb_spec. unfold SFeqb.
  destruct (SFcompare _ _) as [[]|]; split; congruence.
Qed.

Lemma ltb_compare (x y : float) :
  (x <? y)%float = true <-> SFcompare (Prim2SF x) (Prim2SF y) = Some Lt.
Proof.
  rewrite FloatAxioms.ltb_spec. unfold SFltb.
  destruct (SFcompare _ _) as [[]|]; split; congruence.
Qed.

Lemma leb_compare (x y : float) :
  (x <=? y)%float = true
  <-> exists c, SFcompare (Prim2SF x) (Prim2SF y) = Some c /\ c <> Gt.
Proof.
  rewrite FloatAxioms.leb_spec. unfold SFleb.
  destruct (SFcompare _ _) as [[]|]; split;
    try congruence; try (intros (c & H & N); congruence);
    intros _; eexists; split; try reflexivity; congruence.
Qed.

Lemma is_nan_false (x : float) :
  PrimFloat.is_nan x = false <-> Prim2SF x <> S754_nan.
Proof.
  unfold PrimFloat.is_nan. rewrite negb_false_iff, eqb_compare. split.
  - intros H E. rewrite E in H. discriminate.
  - apply SFcompare_refl.
Qed.

Lemma compare_not_nan (x y : float) (c : comparison) :
  SFcompare (Prim2SF x) (Prim2SF y) = Some c ->
  PrimFloat.is_nan x = false /\ PrimFloat.is_nan y = false.
Proof.
  intros H. split; apply is_nan_false; intros E; rewrite E in H;
    [|destruct (Prim2SF x)]; discriminate.
Qed.


Lemma ltb_not_nan (x y : float) :
  (x <? y)%float = true ->
  PrimFloat.is_nan x = false /\ PrimFloat.is_nan y = false.
Proof. rewrite ltb_compare. apply compare_not_nan. Qed.


Lemma ltb_leb (x y : float) :
  (x <? y)%float = true -> (x <=? y)%float = true.
Proof.
  rewrite ltb_compare, leb_compare. intros H. exists Lt. now split.
Qed.







End FloatOrder.

(* ================================================================= *)
(** ** Properties of the constraint-compliance check *)

Module ConstraintFacts.
Import JS Validation.
Import Vocabulary.

(** The check as a function of the missing elements and tests. *)
Lemma verifyConstraintCompliance_cases text context :
  let check := verifyConstraintCompliance text context in
  match filter (elementMissing text) (elementConstraints context) with
  | first :: _ =>
      ValidationCheck.status check = FAIL
      /\ ValidationCheck.missing_element check = Some (contentText first)
  | [] =>
      ValidationCheck.missing_element check = None
      /\ match filter (testMissing text) (testConstraints context) with
         | _ :: _ => ValidationCheck.status check = WARNING
         | [] => ValidationCheck.status check = PASS
         end
  end.
Proof.
  intros check. subst check. unfold verifyConstraintCompliance. cbv zeta.
  rewrite (fold_push_filter (elementMissing text) contentText).
  rewrite (fold_push_filter (testMissing text) contentText).
  cbn [app]. fold (elementConstraints context). fold (testConstraints context).
  destruct (filter (elementMissing text) (elementConstraints context));
    cbn; [|auto].
  destruct (filter (testMissing text) (testConstraints context)); cbn; auto.
Qed.

Lemma existsb_false_iff {A : Type} (f : A -> bool) (l : list A) :
  existsb f l = false <-> forall x, In x l -> f x = false.
Proof.
  induction l as [|y l IH]; simpl.
  - split; [intros _ x [] | reflexivity].
  - rewrite orb_false_iff, IH. split.
    + intros [Hy Hl] x [<- | Hx]; auto.
    + intros H. split; [apply H; now left | intros x Hx; apply H; now right].
Qed.

Lemma elementMissing_spec text c :
  elementMissing text c = true
  <-> keywords (contentText c) <> []
      /\ forall kw, In kw (keywords (contentText c)) -> present text kw = false.
Proof.
  unfold elementMissing. cbv zeta.
  rewrite andb_true_iff, negb_true_iff, existsb_false_iff, Nat.ltb_lt.
  destruct (keywords (contentText c)); simpl; intuition (try lia; congruence).
Qed.

Lemma testMissing_spec text c :
  testMissing text c = true
  <-> keywords (contentText c) <> []
      /\ forall kw, In kw (firstn 3 (keywords (contentText c))) ->
                    present text kw = false.
Proof.
  unfold testMissing. cbv zeta.
  rewrite andb_true_iff, negb_true_iff, existsb_false_iff, Nat.ltb_lt.
  destruct (keywords (contentText c)); simpl; intuition (try lia; congruence).
Qed.

End ConstraintFacts.

(* ================================================================= *)
(** ** Properties of the path computation *)

Module PathFacts.
Import JS Controller.
Import Vocabulary.

Lemma climbsTo_head taxonomy n ids top :
  climbsTo taxonomy n ids top -> hd_error ids = Some (TaxonomyNode.id top).
Proof.
  induction 1 as [n | n p parent ids top Hp Hl Hc IH]; [reflexivity|].
  destruct ids; [discriminate | exact IH].
Qed.

Lemma climbsTo_last taxonomy n ids top :
  climbsTo taxonomy n ids top -> last ids EmptyString = TaxonomyNode.id n.
Proof.
  destruct 1; [reflexivity | apply last_last].
Qed.

(** The loop returns the identifiers met as soon as it reaches a node
    where it stops, whether that node is parentless or refers to a node
    that does not exist. *)
Lemma climb_reaches taxonomy n ids top :
  climbsTo taxonomy n ids top ->
  parentless top \/ dangling taxonomy top ->
  forall fuel acc, List.length ids <= fuel ->
  climb fuel taxonomy n acc = Some (ids ++ acc).
Proof.
  induction 1 as [n | n p parent ids top [Hp Hne] Hl Hc IH];
    intros Hstop fuel acc Hfuel.
  - destruct fuel as [|fuel]; [simpl in Hfuel; lia|]. simpl.
    destruct Hstop as [Hroot | (p & [Hp Hne] & Hl)].
    + unfold parentless in Hroot.
      destruct (TaxonomyNode.parent_id n) as [q|]; [|reflexivity].
      simpl in Hroot. apply negb_false_iff in Hroot. now rewrite Hroot.
    + rewrite Hp. apply String.eqb_neq in Hne. rewrite Hne.
      unfold lookup in Hl. now rewrite Hl.
  - destruct fuel as [|fuel].
    { rewrite length_app in Hfuel. simpl in Hfuel. lia. }
    simpl. rewrite Hp. apply String.eqb_neq in Hne. rewrite Hne.
    unfold lookup in Hl. rewrite Hl.
    rewrite IH; auto.
    + now rewrite <- app_assoc.
    + rewrite length_app in Hfuel. simpl in Hfuel. lia.
Qed.

End PathFacts.

(* ================================================================= *)
(** ** Properties of the generation loop *)

Module LoopFacts.
Import JS Controller Validation Route AggregationFacts.

(** A report of severity MINOR has no failed check, so its overall status
    is PASSED. *)
Lemma minor_report_passed text context :
  ValidationResult.severity (validateGeneratedText text context) = Some MINOR ->
  ValidationResult.overall_status (validateGeneratedText text context) = PASSED.
Proof.
  rewrite validate_by_cases. cbv zeta. cbn [ValidationResult.severity
    ValidationResult.overall_status].
  destruct (status_eqb _ FAIL); [discriminate|].
  destruct (status_eqb _ FAIL || _); [discriminate | reflexivity].
Qed.

(** A report that did not pass has severity CRITICAL or MAJOR. *)
Lemma failed_report_severity text context :
  ValidationResult.overall_status (validateGeneratedText text context) = FAILED ->
  ValidationResult.severity (validateGeneratedText text context) = Some CRITICAL
  \/ ValidationResult.severity (validateGeneratedText text context) = Some MAJOR.
Proof.
  rewrite validate_by_cases. cbv zeta. cbn [ValidationResult.severity
    ValidationResult.overall_status].
  destruct (status_eqb _ FAIL); [now left|].
  destruct (status_eqb _ FAIL || _); [now right | discriminate].
Qed.

Section Loop.
Variable anthropic : nat -> Reply.
Variable max_iterations : nat.
Variable context : AuthorizedContext.t.


End Loop.

(** One round of the loop, by cases on the reply and on the report. *)
Lemma loopBody_cases (anthropic : nat -> Reply) (max_iterations : nat)
    (context : AuthorizedContext.t) (st : LoopState) :
  loopBody anthropic max_iterations context st
  = match anthropic (S (iterations st)) with
    | Failure message => Throw message
    | Completion text =>
        let report := validateGeneratedText text context in
        let next := mkLoop (S (iterations st)) text (Some report) in
        match ValidationResult.overall_status report,
              ValidationResult.severity report with
        | PASSED, _ => Break (next validated)
        | FAILED, Some CRITICAL => Break (next rejected)
        | FAILED, _ =>
            Next (next (if S (iterations st) <? max_iterations
                        then status st else flagged))
        end
    end.
Proof.
  unfold loopBody. destruct (anthropic (S (iterations st))) as [text|message];
    [|reflexivity].
  cbv zeta. unfold passed, severity_is.
  destruct (ValidationResult.overall_status (validateGeneratedText text context))
    eqn:O; [reflexivity|].
  destruct (failed_report_severity text context O) as [-> | ->];
    [reflexivity|].
  now destruct (S (iterations st) <? max_iterations).
Qed.


End LoopFacts.

(* ================================================================= *)
(** ** General lemmas on filters *)

Section Filters.
Context {A : Type}.

Lemma filter_none (f : A -> bool) l :
  (forall x, In x l -> f x = false) -> filter f l = [].
Proof.
  induction l as [|x l IH]; intros H; simpl; [reflexivity|].
  rewrite (H x (or_introl eq_refl)). apply IH. intros y Hy. apply H. now right.
Qed.

Lemma filter_all (f : A -> bool) l :
  (forall x, In x l -> f x = true) -> filter f l = l.
Proof.
  induction l as [|x l IH]; intros H; simpl; [reflexivity|].
  rewrite (H x (or_introl eq_refl)). f_equal. apply IH. intros y Hy.
  apply H. now right.
Qed.

End Filters.

(* ================================================================= *)
(** ** Properties of strings *)

Module StringFacts.
Import JS Vocabulary CitationFacts.

Lemma append_assoc (a b c : string) :
  ((a ++ b) ++ c = a ++ (b ++ c))%string.
Proof. induction a as [|x a IH]; simpl; [reflexivity | now rewrite IH]. Qed.

Lemma append_empty_r (a : string) : (a ++ "")%string = a.
Proof. induction a as [|x a IH]; simpl; [reflexivity | now rewrite IH]. Qed.

Lemma length_append (a b : string) :
  String.length (a ++ b)%string = String.length a + String.length b.
Proof. induction a as [|x a IH]; simpl; [reflexivity | now rewrite IH]. Qed.

Lemma substring_prefix (w rest : string) :
  substring 0 (String.length w) (w ++ rest)%string = w.
Proof.
  induction w as [|x w IH]; simpl.
  - now destruct rest.
  - now rewrite IH.
Qed.

Lemma consumed_append (w rest : string) : consumed (w ++ rest)%string rest = w.
Proof.
  unfold consumed. rewrite length_append.
  replace (String.length w + String.length rest - String.length rest)
    with (String.length w) by lia.
  apply substring_prefix.
Qed.

Lemma toLowerCase_append (a b : string) :
  toLowerCase (a ++ b)%string = (toLowerCase a ++ toLowerCase b)%string.
Proof. induction a as [|x a IH]; simpl; [reflexivity | now rewrite IH]. Qed.

Lemma contains_refl (s : string) : contains s s.
Proof. exists EmptyString, EmptyString. simpl. now rewrite append_empty_r. Qed.

Lemma contains_trans (a b c : string) :
  contains a b -> contains b c -> contains a c.
Proof.
  intros (p1 & q1 & ->) (p2 & q2 & ->).
  exists (p1 ++ p2)%string, (q2 ++ q1)%string.
  now rewrite !append_assoc.
Qed.

Lemma contains_append_l (a b c : string) :
  contains a c -> contains (a ++ b)%string c.
Proof.
  intros (p & q & ->). exists p, (q ++ b)%string. now rewrite !append_assoc.
Qed.

Lemma contains_append_r (a b c : string) :
  contains b c -> contains (a ++ b)%string c.
Proof.
  intros (p & q & ->). exists (a ++ p)%string, q. now rewrite !append_assoc.
Qed.

Lemma contains_lower (a b : string) :
  contains a b -> contains (toLowerCase a) (toLowerCase b).
Proof.
  intros (p & q & ->). exists (toLowerCase p), (toLowerCase q).
  now rewrite !toLowerCase_append.
Qed.

Lemma includes_false (hay needle : string) :
  includes hay needle = false <-> ~ contains hay needle.
Proof.
  rewrite <- includes_spec. destruct (includes hay needle); split; congruence.
Qed.

End StringFacts.

(* ================================================================= *)
(** ** Soundness of the matcher *)

Module RegexSound.
Import JS Vocabulary StringFacts RegexFacts.

(** Soundness of the matcher: what it consumes is a word of the regex. *)
Lemma rmatch_sound (r : regex) :
  forall s c k res,
    rmatch r s c k = Some res ->
    exists w s' c', s = (w ++ s')%string /\ lang r w /\ k s' c' = Some res.
Proof.
  induction r as [p | r1 IH1 r2 IH2 | r1 IH1 | n r1 IH1]; intros s c k res H.
  - simpl in H. destruct s as [|a t]; [discriminate|].
    destruct (p a) eqn:P; [|discriminate].
    exists (String a EmptyString), t, c. repeat split; auto. now constructor.
  - simpl in H. apply IH1 in H as (w1 & s1 & c1 & -> & L1 & H).
    apply IH2 in H as (w2 & s2 & c2 & -> & L2 & H).
    exists (w1 ++ w2)%string, s2, c2. rewrite append_assoc.
    repeat split; auto. now constructor.
  - simpl in H. revert H. generalize (String.length s) at 1. intros n.
    revert s c. induction n as [|n IHn]; intros s c H.
    + exists EmptyString, s, c. repeat split; auto. constructor.
    + match type of H with
      | match ?m with _ => _ end = _ => destruct m as [res'|] eqn:E
      end.
      * injection H as ->. apply IH1 in E as (w1 & s1 & c1 & -> & L1 & E).
        destruct (String.length s1 <? _); [|discriminate].
        apply IHn in E as (w2 & s2 & c2 & -> & L2 & E).
        exists (w1 ++ w2)%string, s2, c2. rewrite append_assoc.
        repeat split; auto. now apply lang_star_more.
      * exists EmptyString, s, c. repeat split; auto. constructor.
  - simpl in H. apply IH1 in H as (w & s1 & c1 & -> & L & H).
    eexists w, s1, _. repeat split; [| exact H]. now constructor.
Qed.

Lemma match_here_sound (r : regex) (s rest : string) (c : captures) :
  match_here r s = Some (rest, c) ->
  exists w, s = (w ++ rest)%string /\ lang r w.
Proof.
  unfold match_here. intros H.
  apply rmatch_sound in H as (w & s' & c' & -> & L & H).
  injection H as -> ->. now exists w.
Qed.

Lemma match_here_consumed (r : regex) (s rest : string) (c : captures) :
  match_here r s = Some (rest, c) ->
  lang r (consumed s rest) /\ s = (consumed s rest ++ rest)%string.
Proof.
  intros H. apply match_here_sound in H as (w & -> & L).
  now rewrite consumed_append.
Qed.

(** A match found by [exec] is a word of the regex that occurs in the
    text, followed by the rest of the text. *)
Lemma exec_sound (r : regex) (s : string) (m : rx_match) :
  exec r s = Some m ->
  lang r (matched m)
  /\ exists before, s = (before ++ matched m ++ after m)%string.
Proof.
  induction s as [|a t IH]; simpl.
  - destruct (match_here r "") as [[rest c]|] eqn:E; [|discriminate].
    intros H. injection H as <-. simpl.
    apply match_here_consumed in E as (L & E).
    split; [exact L | now exists EmptyString].
  - destruct (match_here r (String a t)) as [[rest c]|] eqn:E.
    + intros H. injection H as <-. simpl.
      apply match_here_consumed in E as (L & E).
      split; [exact L | now exists EmptyString].
    + intros H. apply IH in H as (L & before & ->).
      split; [exact L | now exists (String a before)].
Qed.

Lemma exec_loop_sound (r : regex) (fuel : nat) :
  forall s m, In m (exec_loop fuel r s) ->
              lang r (matched m) /\ contains s (matched m).
Proof.
  induction fuel as [|fuel IH]; intros s m; simpl; [intros []|].
  destruct (exec r s) as [m0|] eqn:E; [|intros []].
  apply exec_sound in E as (L & before & E).
  intros [<- | Hin].
  - split; [exact L|]. rewrite E. now exists before, (after m0).
  - apply IH in Hin as (Lm & Hc). split; [exact Lm|].
    rewrite E. now apply contains_append_r, contains_append_r.
Qed.

(** [exec] finds nothing in a text that holds no word of the regex. *)
Lemma exec_all_nothing (r : regex) (s : string) :
  (forall w, lang r w -> ~ contains s w) -> exec_all r s = [].
Proof.
  intros H. unfold exec_all.
  destruct (exec_loop (S (String.length s)) r s) as [|m l] eqn:E;
    [reflexivity|].
  destruct (exec_loop_sound r (S (String.length s)) s m) as (L & C).
  { rewrite E. now left. }
  now elim (H _ L).
Qed.

(** Every piece that [split] returns occurs in the text. *)
Lemma split_loop_pieces (r : regex) (fuel : nat) :
  forall piece s x,
    In x (split_loop fuel r piece s) -> contains (piece ++ s)%string x.
Proof.
  induction fuel as [|fuel IH]; intros piece s x; simpl.
  - intros [<- | []]. apply contains_refl.
  - destruct s as [|a t].
    + intros [<- | []]. rewrite append_empty_r. apply contains_refl.
    + assert (Hstep : In x (split_loop fuel r (piece ++ String a "") t) ->
                      contains (piece ++ String a t)%string x).
      { intros Hin. apply IH in Hin. now rewrite append_assoc in Hin. }
      destruct (match_here r (String a t)) as [[rest c]|] eqn:E; [|exact Hstep].
      destruct ((String.length rest =? String.length (String a t))
                && (String.length piece =? 0)); [exact Hstep|].
      apply match_here_sound in E as (w & E & _).
      intros [<- | Hin].
      * apply contains_append_l, contains_refl.
      * apply IH in Hin. simpl in Hin. rewrite E.
        now apply contains_append_r, contains_append_r.
Qed.

Lemma split_pieces (r : regex) (s x : string) :
  In x (split r s) -> contains s x.
Proof.
  unfold split. destruct s as [|a t].
  - destruct (match_here r ""); [intros [] | intros [<- | []]].
    apply contains_refl.
  - intros H. now apply split_loop_pieces in H.
Qed.

End RegexSound.

(* ================================================================= *)
(** ** Properties of the extraction of citations *)

Module ExtractionFacts.
Import JS Validation Vocabulary StringFacts RegexSound.

Lemma existsb_eqb_In (x : string) (seen : list string) :
  existsb (String.eqb x) seen = true <-> In x seen.
Proof.
  rewrite existsb_exists. split.
  - intros (y & Hy & E). apply String.eqb_eq in E. now subst.
  - intros H. exists x. split; [exact H | apply String.eqb_refl].
Qed.

Lemma dedupe_from_spec (xs : list string) :
  forall seen,
    NoDup (dedupe_from seen xs)
    /\ forall x, In x (dedupe_from seen xs) <-> In x xs /\ ~ In x seen.
Proof.
  induction xs as [|y xs IH]; intros seen; simpl.
  - split; [constructor | intros x; tauto].
  - destruct (existsb (String.eqb y) seen) eqn:E.
    + apply existsb_eqb_In in E. destruct (IH seen) as (Hnd & Hin).
      split; [exact Hnd|]. intros x. rewrite Hin. split.
      * tauto.
      * intros [[<- | Hx] Hn]; [contradiction | tauto].
    + assert (Hy : ~ In y seen).
      { intros Hy. apply existsb_eqb_In in Hy. congruence. }
      destruct (IH (y :: seen)) as (Hnd & Hin). split.
      * constructor; [|exact Hnd]. rewrite Hin. simpl. tauto.
      * intros x. simpl. rewrite Hin. simpl. split.
        -- intros [<- | [Hx Hn]]; tauto.
        -- intros [[<- | Hx] Hn]; [now left|].
           destruct (string_dec y x) as [-> | Hne]; [now left | right; tauto].
Qed.

Lemma dedupe_spec (xs : list string) :
  NoDup (dedupe xs) /\ forall x, In x (dedupe xs) <-> In x xs.
Proof.
  destruct (dedupe_from_spec xs []) as (Hnd & Hin). split; [exact Hnd|].
  intros x. unfold dedupe. rewrite Hin. simpl. tauto.
Qed.

Lemma lang_lit (c : ascii) (w : string) :
  lang (Lit c) w -> w = String c EmptyString.
Proof.
  unfold Lit. inversion 1 as [p a Hp| | | |]; subst.
  apply Ascii.eqb_eq in Hp. now subst.
Qed.

Lemma lang_pattern1 (w : string) : lang pattern1 w -> contains w "v.".
Proof.
  unfold pattern1. intros H.
  inversion H as [|r1 r2 w1 w2 _ H2| | |]; subst.
  inversion H2 as [|r1 r2 w3 w4 _ H4| | |]; subst.
  inversion H4 as [|r1 r2 w5 w6 H5 H6| | |]; subst.
  inversion H6 as [|r1 r2 w7 w8 H7 _| | |]; subst.
  apply lang_lit in H5, H7. subst.
  apply contains_append_r, contains_append_r. now exists EmptyString, w8.
Qed.

Lemma lang_pattern2 (w : string) : lang pattern2 w -> contains w "U.S.".
Proof.
  unfold pattern2. intros H.
  inversion H as [|r1 r2 w1 w2 _ H2| | |]; subst.
  inversion H2 as [|r1 r2 w3 w4 _ H4| | |]; subst.
  inversion H4 as [|r1 r2 w5 w6 H5 H6| | |]; subst.
  inversion H6 as [|r1 r2 w7 w8 H7 H8| | |]; subst.
  inversion H8 as [|r1 r2 w9 w10 H9 H10| | |]; subst.
  inversion H10 as [|r1 r2 w11 w12 H11 _| | |]; subst.
  apply lang_lit in H5, H7, H9, H11. subst.
  apply contains_append_r, contains_append_r. now exists EmptyString, w12.
Qed.

End ExtractionFacts.

(* ================================================================= *)
(** ** Properties of the normalization of citations *)

Module NormalizeFacts.
Import JS Validation Vocabulary StringFacts RegexFacts.

Lemma lower_char_idempotent (c : ascii) :
  lower_char (lower_char c) = lower_char c.
Proof. destruct c as [[] [] [] [] [] [] [] []]; reflexivity. Qed.

Lemma match_here_class (p : ascii -> bool) (s : string) :
  match_here (Class p) s
  = match s with
    | String a t => if p a then Some (t, []) else None
    | EmptyString => None
    end.
Proof. reflexivity. Qed.

Lemma trimStart_length (s : string) :
  String.length (trimStart s) <= String.length s.
Proof.
  induction s as [|a t IH]; simpl; [lia|].
  destruct (is_space a); simpl; lia.
Qed.

(** The greedy star of a class, followed by nothing else, takes the whole
    run. *)
Lemma star_ws_run (n : nat) :
  forall s c, String.length s <= n ->
    (fix iter (n : nat) (s : string) (c : captures) {struct n} :=
       match n with
       | O => Some (s, c)
       | S n' =>
           match rmatch (Class is_space) s c
                   (fun s1 c1 => if String.length s1 <? String.length s
                                 then iter n' s1 c1 else None) with
           | Some res => Some res
           | None => Some (s, c)
           end
       end) n s c
    = Some (trimStart s, c).
Proof.
  induction n as [|n IH]; intros s c Hlen.
  - destruct s; [reflexivity | simpl in Hlen; lia].
  - destruct s as [|a t]; [reflexivity|]. simpl in Hlen.
    cbn [rmatch trimStart]. destruct (is_space a); [|reflexivity].
    assert (L : (String.length t <? String.length (String a t)) = true)
      by (apply Nat.ltb_lt; simpl; lia).
    rewrite L, IH by lia. reflexivity.
Qed.

Lemma match_here_spaces (s : string) :
  match_here (Plus ws) s
  = match s with
    | String a t => if is_space a then Some (trimStart t, []) else None
    | EmptyString => None
    end.
Proof.
  unfold match_here, Plus, ws. destruct s as [|a t]; [reflexivity|].
  cbn [rmatch]. destruct (is_space a); [|reflexivity].
  apply (star_ws_run (String.length t) t []). lia.
Qed.

Lemma replace_remove (fuel : nat) :
  forall s, String.length s < fuel ->
    replace_loop fuel not_word_or_space "" s = keepChars wordOrSpace s.
Proof.
  induction fuel as [|fuel IH]; intros s H; [lia|].
  destruct s as [|a t]; [reflexivity|]. simpl in H.
  cbn [replace_loop]. unfold not_word_or_space at 1.
  rewrite match_here_class. fold not_word_or_space.
  cbn [keepChars]. unfold wordOrSpace at 1.
  destruct (is_word a || is_space a); cbn [negb].
  - rewrite IH by lia. reflexivity.
  - assert (L : (String.length t <? String.length (String a t)) = true)
      by (apply Nat.ltb_lt; simpl; lia).
    rewrite L. simpl. apply IH. lia.
Qed.

Lemma collapse_after_run (s : string) :
  collapseFrom true s = collapseFrom false (trimStart s).
Proof.
  induction s as [|a t IH]; [reflexivity|]. simpl.
  destruct (is_space a) eqn:E; [exact IH|]. simpl. now rewrite E.
Qed.

Lemma replace_collapse (fuel : nat) :
  forall s, String.length s < fuel ->
    replace_loop fuel (Plus ws) " " s = collapseFrom false s.
Proof.
  induction fuel as [|fuel IH]; intros s H; [lia|].
  destruct s as [|a t]; [reflexivity|]. simpl in H.
  cbn [replace_loop]. rewrite match_here_spaces. cbn [collapseFrom].
  destruct (is_space a).
  - pose proof (trimStart_length t) as Ht.
    assert (L : (String.length (trimStart t) <? String.length (String a t))
                = true) by (apply Nat.ltb_lt; simpl; lia).
    rewrite L, IH by lia. simpl. now rewrite collapse_after_run.
  - rewrite IH by lia. reflexivity.
Qed.

Lemma toLowerCase_length (s : string) :
  String.length (toLowerCase s) = String.length s.
Proof. induction s as [|a t IH]; simpl; [reflexivity | now rewrite IH]. Qed.

(** [normalizeCitation] without regular expressions. *)
Lemma normalizeCitation_direct (s : string) :
  normalizeCitation s
  = trim (collapseFrom false (keepChars wordOrSpace (toLowerCase s))).
Proof.
  unfold normalizeCitation, replace.
  rewrite replace_remove by lia. now rewrite replace_collapse by lia.
Qed.

(** Characters that survive each step. *)
Lemma allChars_lower (s : string) : allChars lowerFixed (toLowerCase s) = true.
Proof.
  induction s as [|a t IH]; simpl; [reflexivity|]. rewrite IH.
  unfold lowerFixed. rewrite lower_char_idempotent. now rewrite Ascii.eqb_refl.
Qed.

Lemma allChars_keep_same (p : ascii -> bool) (s : string) :
  allChars p (keepChars p s) = true.
Proof.
  induction s as [|a t IH]; simpl; [reflexivity|].
  destruct (p a) eqn:E; simpl; [now rewrite E|exact IH].
Qed.

Lemma allChars_keep (p q : ascii -> bool) (s : string) :
  allChars p s = true -> allChars p (keepChars q s) = true.
Proof.
  induction s as [|a t IH]; simpl; [reflexivity|].
  intros H. apply andb_true_iff in H as [Ha Ht].
  destruct (q a); simpl; [rewrite Ha|]; auto.
Qed.

Lemma allChars_collapse (p : ascii -> bool) (s : string) :
  p " "%char = true ->
  forall b, allChars p s = true -> allChars p (collapseFrom b s) = true.
Proof.
  intros Hsp. induction s as [|a t IH]; intros b; simpl; [reflexivity|].
  intros H. apply andb_true_iff in H as [Ha Ht].
  destruct (is_space a); [destruct b|]; simpl; rewrite ?Hsp, ?Ha; simpl;
    now apply IH.
Qed.

Lemma allChars_trimStart (p : ascii -> bool) (s : string) :
  allChars p s = true -> allChars p (trimStart s) = true.
Proof.
  induction s as [|a t IH]; simpl; [reflexivity|].
  intros H. destruct (is_space a); [|exact H].
  apply andb_true_iff in H as [_ Ht]. auto.
Qed.

Lemma allChars_trimEnd (p : ascii -> bool) (s : string) :
  allChars p s = true -> allChars p (trimEnd s) = true.
Proof.
  induction s as [|a t IH]; simpl; [reflexivity|].
  intros H. apply andb_true_iff in H as [Ha Ht]. specialize (IH Ht).
  destruct (trimEnd t); [destruct (is_space a)|]; simpl in *;
    rewrite ?Ha; auto.
Qed.

Lemma allChars_trim (p : ascii -> bool) (s : string) :
  allChars p s = true -> allChars p (trim s) = true.
Proof. intros H. now apply allChars_trimEnd, allChars_trimStart. Qed.

(** Strings that each step leaves unchanged. *)
Lemma lower_fixed (s : string) :
  allChars lowerFixed s = true -> toLowerCase s = s.
Proof.
  induction s as [|a t IH]; simpl; [reflexivity|].
  intros H. apply andb_true_iff in H as [Ha Ht].
  apply Ascii.eqb_eq in Ha. now rewrite Ha, IH.
Qed.

Lemma keep_fixed (p : ascii -> bool) (s : string) :
  allChars p s = true -> keepChars p s = s.
Proof.
  induction s as [|a t IH]; simpl; [reflexivity|].
  intros H. apply andb_true_iff in H as [Ha Ht]. now rewrite Ha, IH.
Qed.

Lemma singleSpaced_weaken (s : string) :
  singleSpaced true s = true -> singleSpaced false s = true.
Proof.
  destruct s as [|a t]; simpl; [reflexivity|].
  destruct (is_space a); [|auto]. rewrite andb_false_r. discriminate.
Qed.

Lemma collapse_singleSpaced (s : string) :
  forall b, singleSpaced b (collapseFrom b s) = true.
Proof.
  induction s as [|a t IH]; intros b; simpl; [reflexivity|].
  destruct (is_space a) eqn:E.
  - destruct b; [apply IH|]. simpl. apply IH.
  - simpl. rewrite E. apply IH.
Qed.

Lemma collapse_fixed (s : string) :
  forall b, singleSpaced b s = true -> collapseFrom b s = s.
Proof.
  induction s as [|a t IH]; intros b; simpl; [reflexivity|].
  destruct (is_space a).
  - intros H. apply andb_true_iff in H as [H Ht].
    apply andb_true_iff in H as [Ha Hb]. apply Ascii.eqb_eq in Ha.
    apply negb_true_iff in Hb. subst. now rewrite IH.
  - intros H. now rewrite IH.
Qed.

Lemma singleSpaced_trimStart (s : string) :
  forall b, singleSpaced b s = true -> singleSpaced false (trimStart s) = true.
Proof.
  induction s as [|a t IH]; intros b; simpl; [reflexivity|].
  destruct (is_space a) eqn:E.
  - intros H. apply andb_true_iff in H as [_ Ht]. now apply (IH true).
  - intros H. simpl. now rewrite E.
Qed.

Lemma singleSpaced_trimEnd (s : string) :
  forall b, singleSpaced b s = true -> singleSpaced b (trimEnd s) = true.
Proof.
  induction s as [|a t IH]; intros b; simpl; [reflexivity|].
  destruct (is_space a) eqn:E.
  - intros H. apply andb_true_iff in H as [H Ht]. specialize (IH _ Ht).
    destruct (trimEnd t) eqn:T; simpl; rewrite ?E; [reflexivity|].
    rewrite H. exact IH.
  - intros Ht. specialize (IH _ Ht).
    destruct (trimEnd t) eqn:T; simpl; rewrite ?E; auto.
Qed.

Lemma trimEnd_idempotent (s : string) : trimEnd (trimEnd s) = trimEnd s.
Proof.
  induction s as [|a t IH]; [reflexivity|]. cbn [trimEnd].
  destruct (trimEnd t) as [|b u] eqn:T.
  - destruct (is_space a) eqn:E; [reflexivity|]. simpl. now rewrite E.
  - change (trimEnd (String a (String b u)))
      with (match trimEnd (String b u) with
            | EmptyString =>
                if is_space a then EmptyString else String a EmptyString
            | String c v => String a (String c v)
            end).
    now rewrite IH.
Qed.

Lemma trimStart_trimEnd (s : string) :
  trimStart (trimEnd (trimStart s)) = trimEnd (trimStart s).
Proof.
  assert (H : forall y, trimStart y = y -> trimStart (trimEnd y) = trimEnd y).
  { intros [|a t]; simpl; [reflexivity|].
    destruct (is_space a) eqn:E.
    - intros H. exfalso.
      assert (L := trimStart_length t). rewrite H in L. simpl in L. lia.
    - intros _. destruct (trimEnd t); simpl; now rewrite E. }
  apply H. induction s as [|a t IH]; simpl; [reflexivity|].
  destruct (is_space a) eqn:E; [exact IH|]. simpl. now rewrite E.
Qed.

Lemma trim_idempotent (s : string) : trim (trim s) = trim s.
Proof.
  unfold trim. now rewrite trimStart_trimEnd, trimEnd_idempotent.
Qed.

End NormalizeFacts.

(* ================================================================= *)
(** ** Properties of the target selection *)

Module TargetFacts.
Import JS Controller Vocabulary FloatOrder.

Lemma ltb_leb_trans (x y z : float) :
  (x <? y)%float = true -> (y <=? z)%float = true -> (x <? z)%float = true.
Proof.
  rewrite leb_compare, !ltb_compare. intros H1 (c2 & H2 & N2).
  now rewrite (SFcompare_trans _ _ _ _ _ H1 H2) by (auto; discriminate).
Qed.

Lemma ltb_trans (x y z : float) :
  (x <? y)%float = true -> (y <? z)%float = true -> (x <? z)%float = true.
Proof.
  intros H1 H2. apply ltb_leb_trans with (y := y); auto using ltb_leb.
Qed.

Lemma ltb_not_leb (x y : float) :
  (x <? y)%float = true -> (y <=? x)%float = false.
Proof.
  intros H. destruct (y <=? x)%float eqn:L; [|reflexivity].
  pose proof (ltb_leb_trans _ _ _ H L) as C.
  apply ltb_compare in C.
  destruct (ltb_not_nan _ _ H) as [Hx _]. apply is_nan_false in Hx.
  rewrite (SFcompare_refl _ Hx) in C. discriminate.
Qed.

(** Raising the bar: what was not above the old best is not above, nor
    equal to, a strictly better score. *)
Lemma better_excludes (old new other : float) :
  (old <? new)%float = true -> (old <? other)%float = false ->
  (new <=? other)%float = false.
Proof.
  intros H N. destruct (new <=? other)%float eqn:L; [|reflexivity].
  rewrite (ltb_leb_trans _ _ _ H L) in N. discriminate.
Qed.

Lemma not_leb_not_ltb (x y : float) :
  (x <=? y)%float = false -> (x <? y)%float = false.
Proof.
  intros H. destruct (x <? y)%float eqn:L; [|reflexivity].
  apply ltb_leb in L. congruence.
Qed.

Lemma rootFallback_in taxonomy node :
  rootFallback taxonomy = Some node -> In node taxonomy.
Proof.
  unfold rootFallback.
  destruct (find _ taxonomy) as [n|] eqn:F.
  - intros H. injection H as <-. now apply find_some in F.
  - destruct taxonomy; simpl; [discriminate|]. intros H. injection H as <-.
    now left.
Qed.

Lemma rootFallback_none taxonomy :
  rootFallback taxonomy = None <-> taxonomy = [].
Proof.
  unfold rootFallback. split.
  - destruct (find _ taxonomy); [discriminate|].
    destruct taxonomy; [reflexivity | discriminate].
  - now intros ->.
Qed.

Lemma pick_keeps query threshold seen acc node :
  bestSoFar query threshold seen acc ->
  bestSoFar query threshold (seen ++ [node]) (pick query acc node).
Proof.
  intros H. unfold pick. cbv zeta. fold (score query node).
  destruct H as [Hnone | before best after Hseen Habove Hbefore Hafter]; simpl.
  - destruct (threshold <? score query node)%float eqn:L.
    + apply (best_some _ _ _ seen node []); auto.
      * intros m Hm. apply better_excludes with (old := threshold); auto.
      * intros m [].
    + apply best_none. intros m Hm. apply in_app_iff in Hm as [Hm | [<- | []]];
        auto.
  - destruct (score query best <? score query node)%float eqn:L.
    + apply (best_some _ _ _ seen node []); auto.
      * now apply ltb_trans with (y := score query best).
      * intros m Hm. rewrite Hseen in Hm.
        apply in_app_iff in Hm as [Hm | [<- | Hm]].
        -- apply better_excludes with (old := score query best); auto.
           now apply not_leb_not_ltb, Hbefore.
        -- now apply ltb_not_leb.
        -- apply better_excludes with (old := score query best); auto.
      * intros m [].
    + apply (best_some _ _ _ before best (after ++ [node])); auto.
      * rewrite Hseen, <- app_assoc. reflexivity.
      * intros m Hm. apply in_app_iff in Hm as [Hm | [<- | []]]; auto.
Qed.

Lemma scoring_loop query threshold nodes :
  forall seen acc,
    bestSoFar query threshold seen acc ->
    bestSoFar query threshold (seen ++ nodes)
      (fold_left (pick query) nodes acc).
Proof.
  induction nodes as [|node nodes IH]; intros seen acc H; simpl.
  - now rewrite app_nil_r.
  - replace (seen ++ node :: nodes) with ((seen ++ [node]) ++ nodes)
      by (now rewrite <- app_assoc).
    apply IH. now apply pick_keeps.
Qed.

Lemma determineTargetNode_unfold query taxonomy threshold :
  determineTargetNode query taxonomy threshold
  = match queryTerms query with
    | [] => rootFallback taxonomy
    | _ :: _ =>
        match fst (fold_left (pick query) taxonomy (None, threshold)) with
        | Some node => Some node
        | None => rootFallback taxonomy
        end
    end.
Proof.
  unfold determineTargetNode. cbv zeta. fold (queryTerms query).
  now destruct (queryTerms query).
Qed.

End TargetFacts.

(* ================================================================= *)
(** ** Properties of the controller *)

Module ControllerFacts.
Import JS Controller Route Vocabulary RetrieverFacts PathFacts TargetFacts.

Lemma retrieve_filters path items :
  retrieveReasoningObjects path items
  = filter (exactMatch path) items ++ filter (inheritedMatch path) items.
Proof. unfold retrieveReasoningObjects. now rewrite buckets_filter. Qed.

Lemma exactMatch_spec path item :
  exactMatch path item = true <-> BSetItem.taxonomy_path item = path.
Proof.
  unfold exactMatch.
  destruct (list_eq_dec string_dec (BSetItem.taxonomy_path item) path);
    split; congruence.
Qed.

Lemma startsWith_refl l : startsWith l l = true.
Proof. apply startsWith_spec. exists []. now rewrite app_nil_r. Qed.

Lemma startsWith_trans a b c :
  startsWith a b = true -> startsWith b c = true -> startsWith a c = true.
Proof.
  rewrite !startsWith_spec. intros [r1 ->] [r2 ->].
  exists (r1 ++ r2). now rewrite app_assoc.
Qed.

(** An item matches exactly or by inheritance iff its path starts with the
    query path. *)
Lemma match_startsWith path item :
  exactMatch path item || inheritedMatch path item
  = startsWith path (BSetItem.taxonomy_path item).
Proof.
  unfold inheritedMatch. destruct (exactMatch path item) eqn:E; simpl.
  - apply exactMatch_spec in E. rewrite E. symmetry. apply startsWith_refl.
  - reflexivity.
Qed.

Lemma retrieve_In path items item :
  In item (retrieveReasoningObjects path items)
  <-> In item items /\ startsWith path (BSetItem.taxonomy_path item) = true.
Proof.
  rewrite retrieve_filters, in_app_iff, !filter_In, <- match_startsWith,
    orb_true_iff. tauto.
Qed.

(** The loop of [retrieveConstraintObjects] parses the notes of the items
    that have notes and lie at or below the path, in source order. *)
Lemma retrieveConstraintObjects_flat_map parse path bsetFile :
  retrieveConstraintObjects parse path bsetFile
  = flat_map
      (fun item => parse (or_else (BSetItem.notes item) "")
                     (BSetItem.taxonomy_path item))
      (filter (fun item => truthy (BSetItem.notes item)
                           && startsWith path (BSetItem.taxonomy_path item))
         (BSetFile.items bsetFile)).
Proof.
  unfold retrieveConstraintObjects.
  rewrite <- (app_nil_l (flat_map _ _)). generalize (@nil ConstraintObject.t).
  induction (BSetFile.items bsetFile) as [|item items IH]; intros acc; simpl.
  - now rewrite app_nil_r.
  - rewrite pathsMatch_exactMatch, isAnalyticalPathPrefixOfItem_spec.
    destruct (truthy (BSetItem.notes item)); simpl; [|apply IH].
    destruct (exactMatch path item) eqn:E; simpl.
    + apply exactMatch_spec in E. rewrite E at 2. rewrite startsWith_refl.
      simpl. rewrite IH. now rewrite <- app_assoc.
    + destruct (startsWith path (BSetItem.taxonomy_path item)); simpl.
      * rewrite IH. now rewrite <- app_assoc.
      * apply IH.
Qed.

(** Every path that the loop returns is the list of identifiers of a chain
    that stops at a parentless or dangling node. *)
Lemma climb_returns taxonomy fuel :
  forall n acc path,
    climb fuel taxonomy n acc = Some path ->
    exists ids top,
      path = ids ++ acc /\ climbsTo taxonomy n ids top
      /\ (parentless top \/ dangling taxonomy top)
      /\ List.length ids <= fuel.
Proof.
  induction fuel as [|fuel IH]; intros n acc path H; simpl in H;
    [discriminate|].
  destruct (TaxonomyNode.parent_id n) as [p|] eqn:P.
  - destruct (String.eqb p "") eqn:E.
    + injection H as <-. exists [TaxonomyNode.id n], n.
      repeat split; [apply climbs_stop | | simpl; lia].
      left. unfold parentless. rewrite P. simpl. now rewrite E.
    + apply String.eqb_neq in E.
      destruct (find _ taxonomy) as [parent|] eqn:F.
      * apply IH in H as (ids & top & -> & Hc & Hs & Hl).
        exists (ids ++ [TaxonomyNode.id n]), top. repeat split.
        -- now rewrite <- app_assoc.
        -- now apply (climbs_step taxonomy n p parent ids top).
        -- exact Hs.
        -- rewrite length_app. simpl. lia.
      * injection H as <-. exists [TaxonomyNode.id n], n.
        repeat split; [apply climbs_stop | | simpl; lia].
        right. exists p. now repeat split.
  - injection H as <-. exists [TaxonomyNode.id n], n.
    repeat split; [apply climbs_stop | | simpl; lia].
    left. unfold parentless. now rewrite P.
Qed.

(** On a set of nodes closed under resolved parent links the loop never
    stops. *)
Lemma climb_cycle taxonomy (onCycle : TaxonomyNode.t -> Prop) :
  (forall n, onCycle n ->
     exists p parent, namesParent n p /\ lookup taxonomy p = Some parent
                      /\ onCycle parent) ->
  forall fuel n acc, onCycle n -> climb fuel taxonomy n acc = None.
Proof.
  intros Hclosed. induction fuel as [|fuel IH]; intros n acc Hn; simpl;
    [reflexivity|].
  destruct (Hclosed n Hn) as (p & parent & [Hp Hne] & Hl & Hparent).
  rewrite Hp. apply String.eqb_neq in Hne. rewrite Hne.
  unfold lookup in Hl. rewrite Hl. now apply IH.
Qed.

Lemma targetNodeOf_in taxonomy query targetNodeId node :
  targetNodeOf taxonomy query targetNodeId = Some node -> In node taxonomy.
Proof.
  unfold targetNodeOf. destruct (truthy targetNodeId).
  - intros H. now apply find_some in H.
  - rewrite determineTargetNode_unfold.
    destruct (queryTerms query); [apply rootFallback_in|].
    pose proof (scoring_loop query default_threshold taxonomy [] (None, default_threshold)) as H.
    simpl in H.
    destruct (fold_left (pick query) taxonomy (None, default_threshold))
      as [[best|] sc] eqn:F; simpl; [|apply rootFallback_in].
    intros E. injection E as <-.
    assert (B : bestSoFar query default_threshold taxonomy (Some best, sc)).
    { apply H. apply best_none. intros m []. }
    inversion B as [|before node' after Hseen _ _ _]; subst.
    apply in_app_iff. right. now left.
Qed.

End ControllerFacts.

(* ================================================================= *)
(** ** The result of the generation loop *)

Module LoopResultFacts.
Import JS Controller Validation Route Vocabulary LoopFacts.

(** The final state of a loop that was entered. *)
Lemma generationLoop_result anthropic max_iterations context fuel :
  forall st st',
    iterations st < max_iterations ->
    generationLoop anthropic max_iterations context fuel st = Returned st' ->
    exists text,
      anthropic (iterations st') = Completion text
      /\ st' = mkLoop (iterations st') text
                 (Some (validateGeneratedText text context))
                 (statusOf (validateGeneratedText text context))
      /\ iterations st < iterations st' <= max_iterations
      /\ (status st' = flagged -> iterations st' = max_iterations)
      /\ forall i, iterations st < i < iterations st' ->
           exists t, anthropic i = Completion t
             /\ ValidationResult.severity (validateGeneratedText t context)
                = Some MAJOR.
Proof.
  induction fuel as [|fuel IH]; intros st st' Hlt; simpl;
    apply Nat.ltb_lt in Hlt as Hb; rewrite Hb; [discriminate|].
  rewrite loopBody_cases.
  destruct (anthropic (S (iterations st))) as [text|message] eqn:R;
    [|discriminate].
  cbv zeta.
  destruct (ValidationResult.overall_status (validateGeneratedText text context))
    eqn:O.
  - intros H. injection H as <-. exists text. simpl.
    unfold statusOf, passed. rewrite O.
    repeat split; auto; try lia; try discriminate.
  - destruct (failed_report_severity text context O) as [Sv | Sv]; rewrite Sv.
    + intros H. injection H as <-. exists text. simpl.
      unfold statusOf, passed, severity_is. rewrite O, Sv.
      repeat split; auto; try lia; try discriminate.
    + destruct (S (iterations st) <? max_iterations) eqn:L.
      * apply Nat.ltb_lt in L. intros H.
        apply IH in H as (text' & Ha & Hst & Hi & Hf & Hall); [|simpl; lia].
        simpl in Hi. exists text'. repeat split; auto; try lia.
        intros i Hi'. destruct (Nat.eq_dec i (S (iterations st))) as [-> | Hne].
        -- now exists text.
        -- apply Hall. simpl. lia.
      * apply Nat.ltb_ge in L. destruct fuel as [|fuel]; simpl.
        -- assert (Hx : (S (iterations st) <? max_iterations) = false)
             by (apply Nat.ltb_ge; lia).
           rewrite Hx. intros H. injection H as <-. exists text. simpl.
           unfold statusOf, passed, severity_is. rewrite O, Sv.
           repeat split; auto; try lia.
        -- assert (Hx : (S (iterations st) <? max_iterations) = false)
             by (apply Nat.ltb_ge; lia).
           rewrite Hx. intros H. injection H as <-. exists text. simpl.
           unfold statusOf, passed, severity_is. rewrite O, Sv.
           repeat split; auto; try lia.
Qed.

End LoopResultFacts.

(* ================================================================= *)
(** ** Properties of the instructions and of the feedback *)

Module PromptFacts.
Import JS Controller Validation Vocabulary StringFacts Prompt.
Import AggregationFacts ConstraintFacts RuleFacts CitationFacts.

Lemma reduce_from_append {A : Type} (f : A -> nat -> string) (xs : list A) :
  forall i acc,
    reduce_from (fun acc x idx => (acc ++ f x idx)%string) i xs acc
    = (acc ++ concatFrom f i xs)%string.
Proof.
  induction xs as [|x xs IH]; intros i acc; simpl.
  - now rewrite append_empty_r.
  - rewrite IH. now rewrite append_assoc.
Qed.

Lemma reduce_append {A : Type} (f : A -> nat -> string) (xs : list A)
    (init : string) :
  reduce (fun acc x idx => (acc ++ f x idx)%string) xs init
  = (init ++ concatFrom f 0 xs)%string.
Proof. apply reduce_from_append. Qed.

Lemma concatFrom_nth {A : Type} (f : A -> nat -> string) (xs : list A) :
  forall i k x, nth_error xs k = Some x ->
                contains (concatFrom f i xs) (f x (i + k)).
Proof.
  induction xs as [|y xs IH]; intros i k x H.
  - destruct k; discriminate.
  - destruct k as [|k]; simpl in *.
    + injection H as ->. rewrite Nat.add_0_r.
      apply contains_append_l, contains_refl.
    + apply contains_append_r. rewrite <- Nat.add_succ_comm. now apply IH.
Qed.

Lemma keywords_empty : keywords "" = [].
Proof. reflexivity. Qed.

(** What the three checks of a report contribute. *)
Lemma adjustments_of_report text context :
  generateConstraintAdjustments (validateGeneratedText text context) context
  = adjustmentsOf (verifyCitations text
                     (AuthorizedContext.reasoning_objects context))
    ++ adjustmentsOf (verifyRuleMappings text
                        (AuthorizedContext.reasoning_objects context))
    ++ adjustmentsOf (verifyConstraintCompliance text context).
Proof.
  unfold generateConstraintAdjustments. rewrite validate_by_cases. cbv zeta.
  simpl. now rewrite <- app_assoc.
Qed.

Lemma missing_element_truthy text context :
  ValidationCheck.status (verifyConstraintCompliance text context) = FAIL ->
  truthy (ValidationCheck.missing_element
            (verifyConstraintCompliance text context)) = true.
Proof.
  pose proof (verifyConstraintCompliance_cases text context) as H.
  cbv zeta in H.
  destruct (filter (elementMissing text) (elementConstraints context))
    as [|first rest] eqn:F.
  - destruct H as (_ & H).
    destruct (filter (testMissing text) (testConstraints context));
      rewrite H; discriminate.
  - destruct H as (_ & ->). intros _. simpl.
    assert (Hin : In first (filter (elementMissing text)
                              (elementConstraints context)))
      by (rewrite F; now left).
    apply filter_In in Hin as (_ & Hm).
    apply elementMissing_spec in Hm as (Hk & _).
    destruct (String.eqb (contentText first) "") eqn:E; [|reflexivity].
    apply String.eqb_eq in E. rewrite E in Hk. now elim Hk.
Qed.

(** The adjustments are empty exactly for a report that passed. *)
Lemma adjustments_nil_iff text context :
  generateConstraintAdjustments (validateGeneratedText text context) context
  = []
  <-> ValidationResult.overall_status (validateGeneratedText text context)
      = PASSED.
Proof.
  rewrite adjustments_of_report, validate_by_cases. cbv zeta.
  cbn [ValidationResult.overall_status].
  pose proof (missing_element_truthy text context) as Hm.
  unfold adjustmentsOf.
  rewrite verifyCitations_check_type, verifyRuleMappings_check_type,
    verifyConstraintCompliance_check_type.
  destruct (ValidationCheck.status (verifyCitations _ _));
    destruct (ValidationCheck.status (verifyRuleMappings _ _));
    destruct (ValidationCheck.status (verifyConstraintCompliance _ _));
    cbn; try rewrite (Hm eq_refl); split; try discriminate; try reflexivity.
Qed.

End PromptFacts.

(* ================================================================= *)
(** ** The properties of the specification *)

Import JS Controller Validation Route Vocabulary.
Import RetrieverFacts AggregationFacts CitationFacts RuleFacts FloatOrder
  ConstraintFacts PathFacts LoopFacts.

(** C2. For every path and item list, [retrieveReasoningObjects] returns
    the items whose path equals the query path (in source order) followed
    by the items whose path properly extends it (in source order), and
    nothing else: an item is returned if and only if it is in the list and
    its path equals the query path or has it as a prefix. *)
Theorem retrieve_exact_then_inherited (path : list string)
    (items : list BSetItem.t) :
  retrieveReasoningObjects path items
  = filter (exactMatch path) items ++ filter (inheritedMatch path) items
  /\ (forall item, exactMatch path item = true
                   <-> BSetItem.taxonomy_path item = path)
  /\ (forall item, inheritedMatch path item = true
                   <-> BSetItem.taxonomy_path item <> path
                       /\ exists rest, BSetItem.taxonomy_path item = path ++ rest)
  /\ (forall item, In item (retrieveReasoningObjects path items)
                   <-> In item items
                       /\ (BSetItem.taxonomy_path item = path
                           \/ exists rest,
                                BSetItem.taxonomy_path item = path ++ rest)).
Proof.
  assert (Hexact : forall item, exactMatch path item = true
                                <-> BSetItem.taxonomy_path item = path).
  { intros item. unfold exactMatch.
    destruct (list_eq_dec string_dec (BSetItem.taxonomy_path item) path);
      split; congruence. }
  assert (Hinh : forall item, inheritedMatch path item = true
                 <-> BSetItem.taxonomy_path item <> path
                     /\ exists rest, BSetItem.taxonomy_path item = path ++ rest).
  { intros item. unfold inheritedMatch.
    rewrite andb_true_iff, negb_true_iff, startsWith_spec.
    rewrite <- Hexact. destruct (exactMatch path item); intuition congruence. }
  assert (Heq : retrieveReasoningObjects path items
                = filter (exactMatch path) items
                  ++ filter (inheritedMatch path) items).
  { unfold retrieveReasoningObjects. now rewrite buckets_filter. }
  split; [exact Heq|]. split; [exact Hexact|]. split; [exact Hinh|].
  intros item. rewrite Heq, in_app_iff, !filter_In, Hexact, Hinh. split.
  - intros [[Hin E] | [Hin [_ Hrest]]]; auto.
  - intros [Hin [E | Hrest]]; [now left; split|].
    destruct (list_eq_dec string_dec (BSetItem.taxonomy_path item) path);
      [left | right]; auto.
Qed.

(** C3. The report of [validateGeneratedText] holds the three checks and
    aggregates them as follows: a failed citation check gives severity
    CRITICAL and action REJECT; otherwise any failed check gives MAJOR and
    REGENERATE; otherwise any warning gives MINOR and CORRECT; otherwise
    neither is set.  The overall status is PASSED if and only if no check
    has status FAIL (a warning does not fail the report). *)
Theorem validate_aggregation (generatedText : string)
    (context : AuthorizedContext.t) :
  let objs := AuthorizedContext.reasoning_objects context in
  let citationCheck := verifyCitations generatedText objs in
  let ruleCheck := verifyRuleMappings generatedText objs in
  let constraintCheck := verifyConstraintCompliance generatedText context in
  let report := validateGeneratedText generatedText context in
  let failed c := ValidationCheck.status c = FAIL in
  let warned c := ValidationCheck.status c = WARNING in
  let anyFailed :=
    failed citationCheck \/ failed ruleCheck \/ failed constraintCheck in
  let anyWarned :=
    warned citationCheck \/ warned ruleCheck \/ warned constraintCheck in
  ValidationResult.validation_checks report
  = [citationCheck; ruleCheck; constraintCheck]
  /\ (failed citationCheck ->
      ValidationResult.severity report = Some CRITICAL
      /\ ValidationResult.recommended_action report = Some REJECT)
  /\ (~ failed citationCheck -> anyFailed ->
      ValidationResult.severity report = Some MAJOR
      /\ ValidationResult.recommended_action report = Some REGENERATE)
  /\ (~ anyFailed -> anyWarned ->
      ValidationResult.severity report = Some MINOR
      /\ ValidationResult.recommended_action report = Some CORRECT)
  /\ (~ anyFailed -> ~ anyWarned ->
      ValidationResult.severity report = None
      /\ ValidationResult.recommended_action report = None)
  /\ (ValidationResult.overall_status report = PASSED <-> ~ anyFailed).
Proof.
  cbv zeta. rewrite validate_by_cases. cbv zeta.
  cbn [ValidationResult.validation_checks ValidationResult.severity
       ValidationResult.recommended_action ValidationResult.overall_status].
  destruct (ValidationCheck.status (verifyCitations _ _));
    destruct (ValidationCheck.status (verifyRuleMappings _ _));
    destruct (ValidationCheck.status (verifyConstraintCompliance _ _));
    cbn; intuition congruence.
Qed.

(** *** The citation check *)



(** C9. When some authorized item has a name that normalizes to the empty
    string, every extracted citation is authorized and the citation check
    passes, whatever the generated text. *)
Theorem empty_name_authorizes_every_citation (generatedText : string)
    (authorizedObjects : list BSetItem.t) :
  (exists obj, In obj authorizedObjects
               /\ normalizeCitation (or_else (BSetItem.name obj) "")
                  = EmptyString) ->
  ValidationCheck.status (verifyCitations generatedText authorizedObjects) = PASS
  /\ forall c, In c (extractCitations generatedText) ->
               isAuthorized authorizedObjects c = true.
Proof.
  intros (obj & Hin & Hname).
  assert (Hall : forall c, isAuthorized authorizedObjects c = true).
  { intros c. unfold isAuthorized. apply existsb_exists. exists obj.
    split; [exact Hin|]. unfold citationMatches. cbv zeta.
    rewrite Hname, includes_empty. now rewrite !orb_true_r. }
  split; [|auto].
  destruct (verifyCitations_PASS_or_FAIL generatedText authorizedObjects)
    as [H | H]; [exact H|].
  apply verifyCitations_FAIL_iff in H as (c & _ & Hc).
  rewrite Hall in Hc. discriminate.
Qed.

Lemma empty_name_authorizes_every_citation_witness :
  (exists obj, In obj [unnamed]
               /\ normalizeCitation (or_else (BSetItem.name obj) "")
                  = EmptyString)
  /\ extractCitations "Smith v. Jones controls." = ["Smith v. Jones"]
  /\ ValidationCheck.status (verifyCitations "Smith v. Jones controls." [unnamed])
     = PASS.
Proof.
  assert (H : exists obj, In obj [unnamed]
                /\ normalizeCitation (or_else (BSetItem.name obj) "")
                   = EmptyString).
  { exists unnamed. split; [now left | reflexivity]. }
  split; [exact H|]. split; [vm_compute; reflexivity|].
  exact (proj1 (empty_name_authorizes_every_citation
                  "Smith v. Jones controls." [unnamed] H)).
Defined.

(** *** The rule-mapping check *)


(** C10. When no authorized item has a non-empty rule_of_law, rule or
    holding field, every text with at least one normative sentence fails
    the rule-mapping check, with reported similarity 0 and threshold
    0.65. *)
Theorem no_rule_fields_fails_normative_text (generatedText : string)
    (authorizedObjects : list BSetItem.t) :
  (forall obj, In obj authorizedObjects ->
     truthy (BSetItem.rule_of_law obj) = false
     /\ truthy (BSetItem.rule obj) = false
     /\ truthy (BSetItem.holding obj) = false) ->
  (exists sentence, In sentence (split sentenceEnd generatedText)
                    /\ isNormative sentence = true) ->
  let check := verifyRuleMappings generatedText authorizedObjects in
  ValidationCheck.status check = FAIL
  /\ ValidationCheck.best_match_similarity check = Some 0%float
  /\ ValidationCheck.threshold check = Some 0.65%float.
Proof.
  intros Hfields (sentence & Hin & Hnorm) check.
  assert (Hzero : forall rule, maxSimilarity authorizedObjects rule = 0%float).
  { intros rule. apply maxSimilarity_no_fields. intros obj Hobj.
    destruct (Hfields obj Hobj) as (H1 & H2 & H3).
    now apply authorizedRule_absent. }
  assert (Hall : filter (unmapped authorizedObjects)
                   (extractRuleStatements generatedText)
                 = extractRuleStatements generatedText).
  { apply forallb_filter_id, forallb_forall. intros rule _.
    unfold unmapped. now rewrite Hzero. }
  assert (Hkept : In (trim sentence) (extractRuleStatements generatedText)).
  { rewrite extractRuleStatements_filter. apply in_map, filter_In. now split. }
  pose proof (verifyRuleMappings_cases generatedText authorizedObjects) as H.
  cbv zeta in H. rewrite Hall in H. fold check in H.
  destruct (extractRuleStatements generatedText) as [|first rest] eqn:E;
    [destruct Hkept|].
  destruct H as (Hs & _ & Hb & Ht).
  split; [exact Hs|]. split; [|exact Ht].
  rewrite Hb. f_equal. apply runningMin_zeros; [discriminate|].
  intros v Hv. apply in_map_iff in Hv as (rule & <- & _). apply Hzero.
Qed.

Lemma no_rule_fields_fails_normative_text_witness :
  (forall obj, In obj [unnamed] ->
     truthy (BSetItem.rule_of_law obj) = false
     /\ truthy (BSetItem.rule obj) = false
     /\ truthy (BSetItem.holding obj) = false)
  /\ extractRuleStatements "Hello. The officer must stop." = ["The officer must stop"]
  /\ ValidationCheck.status
       (verifyRuleMappings "Hello. The officer must stop." [unnamed]) = FAIL.
Proof.
  assert (H1 : forall obj, In obj [unnamed] ->
     truthy (BSetItem.rule_of_law obj) = false
     /\ truthy (BSetItem.rule obj) = false
     /\ truthy (BSetItem.holding obj) = false).
  { intros obj [<- | []]. repeat split. }
  split; [exact H1|]. split; [vm_compute; reflexivity|].
  refine (proj1 (no_rule_fields_fails_normative_text
                   "Hello. The officer must stop." [unnamed] H1 _)).
  exists " The officer must stop". split; vm_compute; auto.
Defined.

(** *** The constraint-compliance check *)

(** C7, as stated, fails: a required test none of whose words is longer
    than three characters has none of its first three significant words in
    the text (it has none at all), there is no required element, and yet
    the check returns PASS, not WARNING. *)
Lemma test_without_significant_words_passes :
  let text := "The stop was lawful." in
  filter ConstraintObject.is_element_factor
    (AuthorizedContext.constraint_objects shortTestContext) = []
  /\ (exists c, In c (AuthorizedContext.constraint_objects shortTestContext)
        /\ ConstraintObject.is_test_standard c = true
        /\ forall kw, In kw (firstn 3 (keywords (contentText c))) ->
                      includes (toLowerCase text) kw = false)
  /\ ValidationCheck.status (verifyConstraintCompliance text shortTestContext)
     = PASS.
Proof.
  cbv zeta. split; [reflexivity|]. split; [|vm_compute; reflexivity].
  exists shortTest. split; [now left|]. split; [reflexivity|].
  assert (E : keywords (contentText shortTest) = []) by (vm_compute; reflexivity).
  rewrite E. intros kw [].
Qed.

Ltac settle_status :=
  repeat split; intros;
  repeat match goal with
         | H : _ /\ _ |- _ => destruct H
         | H : ?x <> ?x |- _ => now elim H
         | H : ~ (_ <> _) |- _ => elim H; discriminate
         end;
  try discriminate; try congruence; auto.

(** C7, amended.  The check has status FAIL if and only if some
    required-element constraint has at least one content word longer than
    three characters and none of those words occurs in the lower-cased
    text; it then reports the first such element.  When no element is
    missing, the status is WARNING if some required-test constraint has at
    least one such word and none of its first three occurs in the text,
    and PASS otherwise. *)
Theorem constraint_compliance_check (generatedText : string)
    (context : AuthorizedContext.t) :
  let check := verifyConstraintCompliance generatedText context in
  let constraints := AuthorizedContext.constraint_objects context in
  let words c := keywords (contentText c) in
  let absent kw := includes (toLowerCase generatedText) kw = false in
  let elementIsMissing c :=
    ConstraintObject.is_element_factor c = true
    /\ words c <> [] /\ forall kw, In kw (words c) -> absent kw in
  let testIsMissing c :=
    ConstraintObject.is_test_standard c = true
    /\ words c <> [] /\ forall kw, In kw (firstn 3 (words c)) -> absent kw in
  let someElementMissing := exists c, In c constraints /\ elementIsMissing c in
  let someTestMissing := exists c, In c constraints /\ testIsMissing c in
  (forall c, words c
             = filter (fun w => 3 <? String.length w)
                 (split (Plus ws)
                    (replace not_word_or_space " "
                       (toLowerCase (contentText c)))))
  /\ (ValidationCheck.status check = FAIL <-> someElementMissing)
  /\ ValidationCheck.missing_element check
     = option_map contentText
         (hd_error (filter (elementMissing generatedText)
                      (filter ConstraintObject.is_element_factor constraints)))
  /\ (forall c, elementMissing generatedText c = true
                <-> words c <> [] /\ forall kw, In kw (words c) -> absent kw)
  /\ (ValidationCheck.status check = WARNING
      <-> ~ someElementMissing /\ someTestMissing)
  /\ (ValidationCheck.status check = PASS
      <-> ~ someElementMissing /\ ~ someTestMissing).
Proof.
  cbv zeta. split; [reflexivity|].
  pose proof (verifyConstraintCompliance_cases generatedText context) as H.
  cbv zeta in H. unfold elementConstraints, testConstraints in H.
  pose proof (filter_nonempty_iff (elementMissing generatedText)
    (filter ConstraintObject.is_element_factor
       (AuthorizedContext.constraint_objects context))) as HE.
  pose proof (filter_nonempty_iff (testMissing generatedText)
    (filter ConstraintObject.is_test_standard
       (AuthorizedContext.constraint_objects context))) as HT.
  setoid_rewrite filter_In in HE. setoid_rewrite filter_In in HT.
  setoid_rewrite elementMissing_spec in HE.
  setoid_rewrite testMissing_spec in HT.
  unfold present in HE, HT.
  assert (HE' : (exists c, In c (AuthorizedContext.constraint_objects context)
                   /\ ConstraintObject.is_element_factor c = true
                   /\ keywords (contentText c) <> []
                   /\ forall kw, In kw (keywords (contentText c)) ->
                        includes (toLowerCase generatedText) kw = false)
                <-> filter (elementMissing generatedText)
                      (filter ConstraintObject.is_element_factor
                         (AuthorizedContext.constraint_objects context)) <> []).
  { rewrite HE. split; intros (c & Hc); exists c; tauto. }
  assert (HT' : (exists c, In c (AuthorizedContext.constraint_objects context)
                   /\ ConstraintObject.is_test_standard c = true
                   /\ keywords (contentText c) <> []
                   /\ forall kw, In kw (firstn 3 (keywords (contentText c))) ->
                        includes (toLowerCase generatedText) kw = false)
                <-> filter (testMissing generatedText)
                      (filter ConstraintObject.is_test_standard
                         (AuthorizedContext.constraint_objects context)) <> []).
  { rewrite HT. split; intros (c & Hc); exists c; tauto. }
  rewrite HE', HT'. clear HE HT HE' HT'.
  split; [|split; [|split; [intros c; apply elementMissing_spec|]]].
  - destruct (filter (elementMissing generatedText) _) as [|first rest].
    + destruct H as (_ & H). destruct (filter (testMissing generatedText) _);
        rewrite H; settle_status.
    + destruct H as (H & _). rewrite H. settle_status.
  - destruct (filter (elementMissing generatedText) _) as [|first rest];
      destruct H as (H1 & H2); [exact H1 | exact H2].
  - destruct (filter (elementMissing generatedText) _) as [|first rest].
    + destruct H as (_ & H). destruct (filter (testMissing generatedText) _);
        rewrite H; settle_status.
    + destruct H as (H & _). rewrite H. settle_status.
Qed.

(** *** The similarity scorer *)

(** The validator's scorer is the controller's, written a second time. *)
Lemma computeSimilarity_same (text1 text2 : string) :
  computeSimilarity text1 text2 = computeCosineSimilarity text1 text2.
Proof. reflexivity. Qed.

(** The token list of a text is never empty: the empty string splits into
    one empty token. *)
Lemma tokens_of_empty_string : split (Plus ws) (toLowerCase "") = [""].
Proof. reflexivity. Qed.

(** C8 on the code.  [split] gives the empty string one (empty) token, so
    its vector is not zero and the zero-magnitude guard does not fire: the
    similarity of the empty string with itself is 1, and a text with
    leading white space scores above 0 against the empty string.  The
    quotient is rounded, so that a text can score above or below 1
    against itself. *)
Theorem similarity_with_empty_string :
  computeSimilarity "" "" = 1%float
  /\ computeCosineSimilarity "" "" = 1%float
  /\ computeCosineSimilarity " search" "" = 0x1.6a09e667f3bccp-1%float
  /\ computeSimilarity "a b c" "a b c" = 0x1.0000000000001p+0%float
  /\ computeSimilarity "a b" "a b" = 0x1.ffffffffffffep-1%float.
Proof. repeat split; vm_compute; reflexivity. Qed.

(** *** The generation loop *)

(** C4 on the code.  A validation outcome of severity MINOR has overall
    status PASSED, so the round that produces it ends the loop with status
    [validated]; the branch that would set [flagged] is never reached. *)
Theorem minor_outcome_ends_validated (anthropic : nat -> Reply)
    (max_iterations : nat) (context : AuthorizedContext.t) (st : LoopState)
    (text : string) (fuel : nat) :
  iterations st < max_iterations ->
  anthropic (S (iterations st)) = Completion text ->
  ValidationResult.severity (validateGeneratedText text context) = Some MINOR ->
  generationLoop anthropic max_iterations context (S fuel) st
  = Returned (mkLoop (S (iterations st)) text
                (Some (validateGeneratedText text context)) validated).
Proof.
  intros Hlt Hreply Hminor. simpl.
  apply Nat.ltb_lt in Hlt. rewrite Hlt.
  unfold loopBody. rewrite Hreply. unfold passed.
  now rewrite (minor_report_passed text context Hminor).
Qed.

Lemma minor_outcome_ends_validated_witness :
  ValidationResult.severity
    (validateGeneratedText "The stop was lawful." suspicionContext) = Some MINOR
  /\ generationLoop (fun _ => Completion "The stop was lawful.") 3
       suspicionContext 3 initialState
     = Returned (mkLoop 1 "The stop was lawful."
                   (Some (validateGeneratedText "The stop was lawful."
                            suspicionContext))
                   validated).
Proof.
  assert (H : ValidationResult.severity
                (validateGeneratedText "The stop was lawful." suspicionContext)
              = Some MINOR) by (vm_compute; reflexivity).
  split; [exact H|].
  apply (minor_outcome_ends_validated (fun _ => Completion "The stop was lawful.")
           3 suspicionContext initialState "The stop was lawful." 2);
    [simpl; lia | reflexivity | exact H].
Defined.

(** *** The path computation *)

(** C5, as stated, fails: the only node refers to a parent that is not in
    the taxonomy; [computeAnalyticalPath] returns the one-element path it
    would return for a parentless node, and the request goes on to the
    collaborator and is answered normally. *)
Lemma broken_chain_is_not_reported :
  dangling [orphan] orphan
  /\ computeAnalyticalPath 2 orphan [orphan] = Some ["search"]
  /\ computeAnalyticalPath 2 (TaxonomyNode.mk "search" "Search" None) [orphan]
     = Some ["search"]
  /\ exists response,
       POST noConstraints (fun _ => Completion "The stop was lawful.") 2
         orphanRequest = Some (Ok200 response)
       /\ GenerationResponse.iterations response = 1
       /\ GenerationResponse.status response = validated
       /\ AuthorizedContext.analytical_path
            (GenerationResponse.authorized_context response) = ["search"].
Proof.
  split.
  { exists "ghost". split; [split; [reflexivity | discriminate] | reflexivity]. }
  split; [reflexivity|]. split; [reflexivity|].
  eexists. split; [vm_compute; reflexivity|]. repeat split.
Qed.

(** C5, amended.  When the walk from the target node reaches a node whose
    parent identifier is not in the node list, [computeAnalyticalPath]
    returns, as an ordinary result, the truncated path that begins at that
    node and ends at the target, and [processQuery] carries on with that
    path: it retrieves against it and returns the assembled context.  No
    error is raised. *)
Theorem broken_chain_truncates_path
    (parseNotesForConstraints : string -> list string -> list ConstraintObject.t)
    (fuel : nat) (bsetFile : BSetFile.t) (query : string)
    (targetNodeId : option string) (target top : TaxonomyNode.t)
    (ids : list string) :
  targetNodeOf (BSetFile.headings bsetFile) query targetNodeId = Some target ->
  climbsTo (BSetFile.headings bsetFile) target ids top ->
  dangling (BSetFile.headings bsetFile) top ->
  List.length ids <= fuel ->
  computeAnalyticalPath fuel target (BSetFile.headings bsetFile) = Some ids
  /\ hd_error ids = Some (TaxonomyNode.id top)
  /\ last ids EmptyString = TaxonomyNode.id target
  /\ processQuery parseNotesForConstraints fuel bsetFile query targetNodeId
     = Returned
         (assembleAuthorizedContext ids target
            (retrieveReasoningObjects ids (BSetFile.items bsetFile))
            (retrieveConstraintObjects parseNotesForConstraints ids bsetFile)).
Proof.
  intros Htarget Hclimb Hdangling Hfuel.
  assert (Hpath : computeAnalyticalPath fuel target (BSetFile.headings bsetFile)
                  = Some ids).
  { unfold computeAnalyticalPath.
    rewrite (climb_reaches _ _ _ _ Hclimb (or_intror Hdangling) fuel [] Hfuel).
    now rewrite app_nil_r. }
  split; [exact Hpath|].
  split; [exact (climbsTo_head _ _ _ _ Hclimb)|].
  split; [exact (climbsTo_last _ _ _ _ Hclimb)|].
  unfold processQuery. cbv zeta. now rewrite Htarget, Hpath.
Qed.

Lemma broken_chain_truncates_path_witness :
  dangling (BSetFile.headings orphanFile) orphan
  /\ processQuery noConstraints 2 orphanFile "search" None
     = Returned
         (assembleAuthorizedContext ["search"] orphan [searchCase] []).
Proof.
  assert (Hd : dangling (BSetFile.headings orphanFile) orphan).
  { exists "ghost". split; [split; [reflexivity | discriminate] | reflexivity]. }
  split; [exact Hd|].
  refine (proj2 (proj2 (proj2
    (broken_chain_truncates_path noConstraints 2 orphanFile "search" None
       orphan orphan ["search"] _ _ Hd _)))).
  - vm_compute. reflexivity.
  - apply climbs_stop.
  - simpl. lia.
Defined.

(** *** Further properties of the loop and of the path computation *)

(** X1. One round of the generation loop: a thrown collaborator error
    aborts; a report that passed ends the loop with [validated]; a
    CRITICAL report ends it with [rejected]; any other failed report (it
    is MAJOR) lets the loop test run again, with status [flagged] once the
    attempts are used up. *)
Theorem loop_round_outcome (anthropic : nat -> Reply) (max_iterations : nat)
    (context : AuthorizedContext.t) (st : LoopState) :
  loopBody anthropic max_iterations context st
  = match anthropic (S (iterations st)) with
    | Failure message => Throw message
    | Completion text =>
        let report := validateGeneratedText text context in
        let next := mkLoop (S (iterations st)) text (Some report) in
        match ValidationResult.overall_status report,
              ValidationResult.severity report with
        | PASSED, _ => Break (next validated)
        | FAILED, Some CRITICAL => Break (next rejected)
        | FAILED, _ =>
            Next (next (if S (iterations st) <? max_iterations
                        then status st else flagged))
        end
    end.
Proof. apply loopBody_cases. Qed.


(** X3. On a chain of parent links that ends at a parentless node, the path
    computation returns the identifiers from that node down to the
    target. *)
Theorem path_of_rooted_chain (fuel : nat) (taxonomy : list TaxonomyNode.t)
    (target top : TaxonomyNode.t) (ids : list string) :
  climbsTo taxonomy target ids top ->
  parentless top ->
  List.length ids <= fuel ->
  computeAnalyticalPath fuel target taxonomy = Some ids
  /\ hd_error ids = Some (TaxonomyNode.id top)
  /\ last ids EmptyString = TaxonomyNode.id target.
Proof.
  intros Hclimb Hroot Hfuel. split; [|split].
  - unfold computeAnalyticalPath.
    rewrite (climb_reaches _ _ _ _ Hclimb (or_introl Hroot) fuel [] Hfuel).
    now rewrite app_nil_r.
  - exact (climbsTo_head _ _ _ _ Hclimb).
  - exact (climbsTo_last _ _ _ _ Hclimb).
Qed.

Lemma path_of_rooted_chain_witness :
  climbsTo [rootNode; searchNode] searchNode ["root"; "search"] rootNode
  /\ computeAnalyticalPath 2 searchNode [rootNode; searchNode]
     = Some ["root"; "search"].
Proof.
  assert (H : climbsTo [rootNode; searchNode] searchNode ["root"; "search"]
                rootNode).
  { apply (climbs_step [rootNode; searchNode] searchNode "root" rootNode
             ["root"] rootNode).
    - split; [reflexivity | discriminate].
    - reflexivity.
    - apply climbs_stop. }
  split; [exact H|].
  refine (proj1 (path_of_rooted_chain 2 [rootNode; searchNode] searchNode
                   rootNode ["root"; "search"] H _ _)).
  - reflexivity.
  - simpl. lia.
Defined.

(* ================================================================= *)
(** ** Further properties of the code *)

Import Prompt.
Import StringFacts RegexSound ExtractionFacts NormalizeFacts TargetFacts
  ControllerFacts LoopResultFacts PromptFacts.

(** X4. [determineTargetNode] returns a node of the taxonomy, and returns
    [null] only when the taxonomy is empty. *)
Theorem determineTargetNode_member (query : string)
    (taxonomy : list TaxonomyNode.t) (threshold : float) :
  (determineTargetNode query taxonomy threshold = None <-> taxonomy = [])
  /\ forall node, determineTargetNode query taxonomy threshold = Some node ->
                  In node taxonomy.
Proof.
  rewrite determineTargetNode_unfold.
  pose proof (scoring_loop query threshold taxonomy [] (None, threshold)) as H.
  simpl in H.
  assert (B : bestSoFar query threshold taxonomy
                (fold_left (pick query) taxonomy (None, threshold))).
  { apply H. apply best_none. intros m []. }
  destruct (queryTerms query) as [|t ts].
  - split; [apply rootFallback_none | apply rootFallback_in].
  - destruct (fold_left (pick query) taxonomy (None, threshold))
      as [[best|] sc]; simpl.
    + inversion B as [|before node' after Hseen _ _ _]; subst. split.
      * split; [discriminate | intros E; now destruct before].
      * intros node E. injection E as <-. apply in_app_iff. right. now left.
    + split; [apply rootFallback_none | apply rootFallback_in].
Qed.

(** X5. The fallback of [determineTargetNode]: when no term of the query
    survives the length and stop-word filter, or when no node scores above
    the threshold, the result is the first node without a parent, or the
    first node when every node has one. *)
Theorem determineTargetNode_falls_back (query : string)
    (taxonomy : list TaxonomyNode.t) (threshold : float) :
  queryTerms query = []
  \/ (forall m, In m taxonomy -> (threshold <? score query m)%float = false) ->
  determineTargetNode query taxonomy threshold
  = match find (fun n => negb (truthy (TaxonomyNode.parent_id n))) taxonomy with
    | Some root => Some root
    | None => hd_error taxonomy
    end.
Proof.
  intros H. rewrite determineTargetNode_unfold. fold (rootFallback taxonomy).
  destruct (queryTerms query) as [|t ts]; [reflexivity|].
  destruct H as [H | H]; [discriminate|].
  assert (E : forall nodes acc,
             (forall m, In m nodes -> (threshold <? score query m)%float = false) ->
             acc = (None, threshold) ->
             fold_left (pick query) nodes acc = (None, threshold)).
  { induction nodes as [|n nodes IH]; intros acc Hn ->; simpl; [reflexivity|].
    apply IH; [intros m Hm; apply Hn; now right|].
    unfold pick. cbv zeta. fold (score query n). simpl.
    now rewrite (Hn n (or_introl eq_refl)). }
  now rewrite (E taxonomy _ H eq_refl).
Qed.

Lemma determineTargetNode_falls_back_witness :
  queryTerms "is it the" = []
  /\ determineTargetNode "is it the" [searchNode; rootNode] 0.15%float
     = Some rootNode.
Proof.
  assert (H : queryTerms "is it the" = []) by (vm_compute; reflexivity).
  split; [exact H|].
  exact (determineTargetNode_falls_back "is it the" [searchNode; rootNode]
           0.15%float (or_introl H)).
Defined.

(** X6. When the query has significant terms and some node scores above
    the threshold, [determineTargetNode] returns the first node of highest
    score: its score is above the threshold, no earlier node scores as
    high, and no later node scores higher. *)
Theorem determineTargetNode_best (query : string)
    (taxonomy : list TaxonomyNode.t) (threshold : float) :
  queryTerms query <> [] ->
  (exists m, In m taxonomy /\ (threshold <? score query m)%float = true) ->
  exists before node after,
    taxonomy = before ++ node :: after
    /\ determineTargetNode query taxonomy threshold = Some node
    /\ (threshold <? score query node)%float = true
    /\ (forall m, In m before ->
          (score query node <=? score query m)%float = false)
    /\ (forall m, In m after ->
          (score query node <? score query m)%float = false).
Proof.
  intros Hterms (m & Hm & Habove). rewrite determineTargetNode_unfold.
  destruct (queryTerms query) as [|t ts]; [congruence|].
  pose proof (scoring_loop query threshold taxonomy [] (None, threshold)) as H.
  simpl in H.
  assert (B : bestSoFar query threshold taxonomy
                (fold_left (pick query) taxonomy (None, threshold))).
  { apply H. apply best_none. intros x []. }
  inversion B as [Hnone E | before node after Hseen Hab Hbefore Hafter E].
  - rewrite (Hnone m Hm) in Habove. discriminate.
  - exists before, node, after. simpl. repeat split; auto.
Qed.

Lemma determineTargetNode_best_witness :
  queryTerms "was there a search" <> []
  /\ determineTargetNode "was there a search" [rootNode; searchNode] 0.15%float
     = Some searchNode.
Proof.
  assert (H : queryTerms "was there a search" <> [])
    by (vm_compute; discriminate).
  split; [exact H|].
  destruct (determineTargetNode_best "was there a search"
              [rootNode; searchNode] 0.15%float H)
    as (before & node & after & _ & E & _).
  - exists searchNode. split; [right; now left | vm_compute; reflexivity].
  - rewrite E. vm_compute in E. exact (eq_sym E).
Defined.

(** X7. [computeAnalyticalPath] returns a path exactly when the chain of
    parent links from the target reaches, within the steps allowed, a node
    that has no parent or whose parent does not exist; the path is then
    the list of identifiers of that chain, from that node to the target. *)
Theorem computeAnalyticalPath_spec (fuel : nat) (target : TaxonomyNode.t)
    (taxonomy : list TaxonomyNode.t) (path : list string) :
  computeAnalyticalPath fuel target taxonomy = Some path
  <-> exists top,
        climbsTo taxonomy target path top
        /\ (parentless top \/ dangling taxonomy top)
        /\ List.length path <= fuel.
Proof.
  unfold computeAnalyticalPath. split.
  - intros H. apply climb_returns in H as (ids & top & -> & Hc & Hs & Hl).
    rewrite app_nil_r. now exists top.
  - intros (top & Hc & Hs & Hl).
    rewrite (climb_reaches _ _ _ _ Hc Hs fuel [] Hl). now rewrite app_nil_r.
Qed.

(** X8. On a cycle of parent links the path computation never returns:
    whatever the number of steps allowed, the loop is still running. *)
Theorem computeAnalyticalPath_cycle (taxonomy : list TaxonomyNode.t)
    (onCycle : TaxonomyNode.t -> Prop) (target : TaxonomyNode.t) (fuel : nat) :
  (forall n, onCycle n ->
     exists p parent, namesParent n p /\ lookup taxonomy p = Some parent
                      /\ onCycle parent) ->
  onCycle target ->
  computeAnalyticalPath fuel target taxonomy = None.
Proof.
  intros Hclosed Ht. unfold computeAnalyticalPath.
  now apply (climb_cycle taxonomy onCycle Hclosed).
Qed.

Lemma computeAnalyticalPath_cycle_witness :
  computeAnalyticalPath 1000 cycleA [cycleA; cycleB] = None.
Proof.
  apply (computeAnalyticalPath_cycle [cycleA; cycleB]
           (fun n => n = cycleA \/ n = cycleB)).
  - intros n [-> | ->].
    + exists "b", cycleB. repeat split; [discriminate | now right].
    + exists "a", cycleA. repeat split; [discriminate | now left].
  - now left.
Defined.

(** X9. The context that [processQuery] returns is consistent: its target
    is a node of the taxonomy, its path ends at the target, its reasoning
    objects are exactly the items whose path starts with that path, and
    every constraint was parsed from the notes of one of those items. *)
Theorem processQuery_context
    (parseNotesForConstraints : string -> list string -> list ConstraintObject.t)
    (fuel : nat) (bsetFile : BSetFile.t) (query : string)
    (targetNodeId : option string) (context : AuthorizedContext.t) :
  processQuery parseNotesForConstraints fuel bsetFile query targetNodeId
  = Returned context ->
  In (AuthorizedContext.target_node context) (BSetFile.headings bsetFile)
  /\ last (AuthorizedContext.analytical_path context) EmptyString
     = TaxonomyNode.id (AuthorizedContext.target_node context)
  /\ (forall item,
        In item (AuthorizedContext.reasoning_objects context)
        <-> In item (BSetFile.items bsetFile)
            /\ startsWith (AuthorizedContext.analytical_path context)
                 (BSetItem.taxonomy_path item) = true)
  /\ (forall c,
        In c (AuthorizedContext.constraint_objects context) ->
        exists item,
          In item (AuthorizedContext.reasoning_objects context)
          /\ truthy (BSetItem.notes item) = true
          /\ In c (parseNotesForConstraints (or_else (BSetItem.notes item) "")
                     (BSetItem.taxonomy_path item))).
Proof.
  unfold processQuery. cbv zeta.
  destruct (targetNodeOf _ query targetNodeId) as [target|] eqn:T;
    [|discriminate].
  destruct (computeAnalyticalPath fuel target _) as [path|] eqn:P;
    [|discriminate].
  intros H. injection H as <-. simpl.
  split; [now apply targetNodeOf_in in T|].
  split.
  { apply climb_returns in P as (ids & top & -> & Hc & _).
    rewrite app_nil_r. now apply climbsTo_last in Hc. }
  split; [intros item; apply retrieve_In|].
  intros c Hc. rewrite retrieveConstraintObjects_flat_map in Hc.
  apply in_flat_map in Hc as (item & Hitem & Hc).
  apply filter_In in Hitem as (Hin & Hcond).
  apply andb_true_iff in Hcond as (Hnotes & Hpath).
  exists item. split; [now apply retrieve_In|]. now split.
Qed.

Lemma processQuery_context_witness :
  processQuery noConstraints 2 orphanFile "search" None
  = Returned (assembleAuthorizedContext ["search"] orphan [searchCase] [])
  /\ (forall item, In item [searchCase]
        <-> In item (BSetFile.items orphanFile)
            /\ startsWith ["search"] (BSetItem.taxonomy_path item) = true).
Proof.
  assert (H : processQuery noConstraints 2 orphanFile "search" None
              = Returned (assembleAuthorizedContext ["search"] orphan
                            [searchCase] []))
    by (vm_compute; reflexivity).
  split; [exact H|].
  exact (proj1 (proj2 (proj2
    (processQuery_context noConstraints 2 orphanFile "search" None _ H)))).
Defined.

(** X10. Descending the taxonomy never adds authorities: when one path
    extends another, every item retrieved for the longer path is retrieved
    for the shorter one. *)
Theorem retrieve_narrows (path longer : list string) (items : list BSetItem.t)
    (item : BSetItem.t) :
  startsWith path longer = true ->
  In item (retrieveReasoningObjects longer items) ->
  In item (retrieveReasoningObjects path items).
Proof.
  rewrite !retrieve_In. intros Hext [Hin Hlong]. split; [exact Hin|].
  now apply startsWith_trans with (b := longer).
Qed.

Lemma retrieve_narrows_witness :
  startsWith ["root"] ["root"; "search"] = true
  /\ In wiretapCase (retrieveReasoningObjects ["root"; "search"] [roe; wiretapCase])
  /\ In wiretapCase (retrieveReasoningObjects ["root"] [roe; wiretapCase]).
Proof.
  assert (H : In wiretapCase
                (retrieveReasoningObjects ["root"; "search"] [roe; wiretapCase]))
    by (vm_compute; auto).
  split; [reflexivity|]. split; [exact H|].
  exact (retrieve_narrows ["root"] ["root"; "search"] [roe; wiretapCase]
           wiretapCase eq_refl H).
Defined.

(** X11. Retrieval is idempotent, and it returns every item at most as
    often as the item list holds it: retrieving again from the result
    changes nothing. *)
Theorem retrieve_idempotent (path : list string) (items : list BSetItem.t) :
  retrieveReasoningObjects path (retrieveReasoningObjects path items)
  = retrieveReasoningObjects path items
  /\ List.length (retrieveReasoningObjects path items) <= List.length items.
Proof.
  split.
  - rewrite (retrieve_filters path items), retrieve_filters, !filter_app.
    assert (Hi : forall x, inheritedMatch path x = true -> exactMatch path x = false).
    { intros x. unfold inheritedMatch. now destruct (exactMatch path x). }
    assert (He : forall x, exactMatch path x = true -> inheritedMatch path x = false).
    { intros x. unfold inheritedMatch. now intros ->. }
    rewrite (filter_all (exactMatch path) (filter (exactMatch path) items)),
      (filter_none (exactMatch path) (filter (inheritedMatch path) items)),
      (filter_none (inheritedMatch path) (filter (exactMatch path) items)),
      (filter_all (inheritedMatch path) (filter (inheritedMatch path) items)).
    + now rewrite app_nil_r.
    + intros x Hx. now apply filter_In in Hx.
    + intros x Hx. apply filter_In in Hx. now apply He.
    + intros x Hx. apply filter_In in Hx. now apply Hi.
    + intros x Hx. now apply filter_In in Hx.
  - rewrite retrieve_filters, length_app.
    assert (L : forall l, List.length (filter (exactMatch path) l)
                          + List.length (filter (inheritedMatch path) l)
                          <= List.length l).
    { induction l as [|x l IH]; simpl; [lia|].
      unfold inheritedMatch at 1.
      destruct (exactMatch path x); simpl; [lia|].
      destruct (startsWith path (BSetItem.taxonomy_path x)); simpl; lia. }
    apply L.
Qed.

(** X12. The requests that [POST] turns down before any collaborator call:
    a missing query or knowledge base is answered 400; a target that
    cannot be determined (an unknown [target_node_id], or an empty
    taxonomy) is answered 500 with the controller's message; a context
    without authorized items is answered 404 with that context.  None of
    these answers depends on the collaborator. *)
Theorem POST_turns_down
    (parseNotesForConstraints : string -> list string -> list ConstraintObject.t)
    (anthropic : nat -> Reply) (fuel : nat) (body : GenerationRequest.t) :
  (truthy (GenerationRequest.query body) = false
   \/ GenerationRequest.bset_file body = None ->
   POST parseNotesForConstraints anthropic fuel body
   = Some (BadRequest400 "Missing required fields: query and bset_file"))
  /\ (forall bsetFile,
        GenerationRequest.bset_file body = Some bsetFile ->
        truthy (GenerationRequest.query body) = true ->
        targetNodeOf (BSetFile.headings bsetFile)
          (or_else (GenerationRequest.query body) "")
          (GenerationRequest.target_node_id body) = None ->
        POST parseNotesForConstraints anthropic fuel body
        = Some (ServerError500 "Internal server error"
                  "Could not determine target analytical node from query"))
  /\ (forall bsetFile context,
        GenerationRequest.bset_file body = Some bsetFile ->
        truthy (GenerationRequest.query body) = true ->
        processQuery parseNotesForConstraints fuel bsetFile
          (or_else (GenerationRequest.query body) "")
          (GenerationRequest.target_node_id body) = Returned context ->
        AuthorizedContext.reasoning_objects context = [] ->
        POST parseNotesForConstraints anthropic fuel body
        = Some (NotFound404
                  "No authorized reasoning objects found for this query"
                  context)).
Proof.
  unfold POST. cbv zeta. repeat split.
  - intros [Hq | Hb].
    + destruct (GenerationRequest.bset_file body); [|reflexivity].
      now rewrite Hq.
    + now rewrite Hb.
  - intros bsetFile Hb Hq Ht. rewrite Hb, Hq. simpl.
    unfold processQuery. cbv zeta. now rewrite Ht.
  - intros bsetFile context Hb Hq Hp Hempty. rewrite Hb, Hq. simpl.
    rewrite Hp, Hempty. reflexivity.
Qed.

(** X13. An unknown [target_node_id] is an error, not a fallback: when
    the request names a target and no node has that identifier,
    [processQuery] throws, whatever the query. *)
Theorem unknown_target_throws
    (parseNotesForConstraints : string -> list string -> list ConstraintObject.t)
    (fuel : nat) (bsetFile : BSetFile.t) (query targetNodeId : string) :
  targetNodeId <> EmptyString ->
  (forall node, In node (BSetFile.headings bsetFile) ->
                TaxonomyNode.id node <> targetNodeId) ->
  processQuery parseNotesForConstraints fuel bsetFile query (Some targetNodeId)
  = Thrown "Could not determine target analytical node from query".
Proof.
  intros Hne Hnone. unfold processQuery, targetNodeOf. cbv zeta. simpl.
  apply String.eqb_neq in Hne as Hb. rewrite Hb. simpl.
  destruct (find _ (BSetFile.headings bsetFile)) as [node|] eqn:F;
    [|reflexivity].
  apply find_some in F as [Hin E]. apply String.eqb_eq in E.
  now elim (Hnone node Hin).
Qed.

Lemma unknown_target_throws_witness :
  processQuery noConstraints 5 orphanFile "search" (Some "seizure")
  = Thrown "Could not determine target analytical node from query".
Proof.
  apply (unknown_target_throws noConstraints 5 orphanFile "search" "seizure").
  - discriminate.
  - intros node [<- | []]. discriminate.
Defined.

(** X14. The answer of a generation loop that ran.  When at least one
    attempt is allowed and the loop returns, it returns the collaborator's
    last reply with the report of that reply; the status is [validated]
    when that report passed, [rejected] when it is CRITICAL and [flagged]
    otherwise, and [flagged] only after the last permitted attempt; every
    earlier reply had a report of severity MAJOR. *)
Theorem generation_loop_result (anthropic : nat -> Reply)
    (max_iterations : nat) (context : AuthorizedContext.t) (st : LoopState) :
  0 < max_iterations ->
  generationLoop anthropic max_iterations context max_iterations initialState
  = Returned st ->
  exists text,
    anthropic (iterations st) = Completion text
    /\ 1 <= iterations st <= max_iterations
    /\ generatedText st = text
    /\ validationReport st = Some (validateGeneratedText text context)
    /\ status st = statusOf (validateGeneratedText text context)
    /\ (status st = flagged -> iterations st = max_iterations)
    /\ forall i, 1 <= i < iterations st ->
         exists t, anthropic i = Completion t
           /\ ValidationResult.severity (validateGeneratedText t context)
              = Some MAJOR.
Proof.
  intros Hmax H.
  apply generationLoop_result in H as (text & Ha & Hst & Hi & Hf & Hall);
    [|exact Hmax].
  simpl in Hi. exists text.
  assert (E1 : generatedText st = text) by (now rewrite Hst).
  assert (E2 : validationReport st
               = Some (validateGeneratedText text context))
    by (now rewrite Hst).
  assert (E3 : status st = statusOf (validateGeneratedText text context))
    by (now rewrite Hst).
  split; [exact Ha|]. split; [lia|]. split; [exact E1|]. split; [exact E2|].
  split; [exact E3|]. split; [exact Hf|].
  intros i Hi'. apply Hall. simpl. lia.
Qed.

Lemma generation_loop_result_witness :
  generationLoop (fun _ => Completion "The officer must stop.") 2
    suspicionContext 2 initialState
  = Returned (mkLoop 2 "The officer must stop."
                (Some (validateGeneratedText "The officer must stop."
                         suspicionContext))
                flagged)
  /\ ValidationResult.severity
       (validateGeneratedText "The officer must stop." suspicionContext)
     = Some MAJOR.
Proof.
  assert (H : generationLoop (fun _ => Completion "The officer must stop.") 2
                suspicionContext 2 initialState
              = Returned (mkLoop 2 "The officer must stop."
                  (Some (validateGeneratedText "The officer must stop."
                           suspicionContext))
                  flagged)) by (vm_compute; reflexivity).
  split; [exact H|].
  destruct (generation_loop_result (fun _ => Completion "The officer must stop.")
              2 suspicionContext _ (Nat.lt_0_succ 1) H)
    as (text & _ & _ & _ & _ & _ & _ & Hall).
  destruct (Hall 1) as (t & Ht & Hsev); [simpl; lia|].
  injection Ht as <-. exact Hsev.
Defined.

(** X15. A text in which neither [v.] nor [U.S.] occurs holds no
    citation: nothing is extracted and the citation check passes,
    whatever the authorized items. *)
Theorem text_without_citation_marks_passes (generatedText : string)
    (authorizedObjects : list BSetItem.t) :
  includes generatedText "v." = false ->
  includes generatedText "U.S." = false ->
  extractCitations generatedText = []
  /\ ValidationCheck.status (verifyCitations generatedText authorizedObjects)
     = PASS.
Proof.
  intros Hv Hus. apply includes_false in Hv, Hus.
  assert (E : extractCitations generatedText = []).
  { unfold extractCitations. cbv zeta.
    rewrite (exec_all_nothing pattern1), (exec_all_nothing pattern2);
      [reflexivity | |].
    - intros w L C. apply Hus.
      apply contains_trans with (b := w); [exact C | now apply lang_pattern2].
    - intros w L C. apply Hv.
      apply contains_trans with (b := w); [exact C | now apply lang_pattern1]. }
  split; [exact E|]. rewrite verifyCitations_status, E. reflexivity.
Qed.

Lemma text_without_citation_marks_passes_witness :
  includes "The stop was lawful." "v." = false
  /\ includes "The stop was lawful." "U.S." = false
  /\ ValidationCheck.status (verifyCitations "The stop was lawful." []) = PASS.
Proof.
  split; [reflexivity|]. split; [reflexivity|].
  exact (proj2 (text_without_citation_marks_passes "The stop was lawful." []
                  eq_refl eq_refl)).
Defined.

(** X16. A text whose lower-cased form holds none of the normative
    keywords states no rule: no sentence is kept and the rule-mapping
    check passes, whatever the authorized items. *)
Theorem text_without_normative_keyword_passes (generatedText : string)
    (authorizedObjects : list BSetItem.t) :
  (forall kw, In kw normativeKeywords ->
              includes (toLowerCase generatedText) kw = false) ->
  extractRuleStatements generatedText = []
  /\ ValidationCheck.status (verifyRuleMappings generatedText authorizedObjects)
     = PASS.
Proof.
  intros Hnone.
  assert (E : extractRuleStatements generatedText = []).
  { rewrite extractRuleStatements_filter.
    rewrite (filter_none isNormative); [reflexivity|].
    intros sentence Hin. apply split_pieces in Hin.
    destruct (isNormative sentence) eqn:N; [|reflexivity].
    apply isNormative_spec in N as (kw & Hkw & Hinc).
    apply includes_spec in Hinc.
    specialize (Hnone kw Hkw). apply includes_false in Hnone.
    elim Hnone. apply contains_trans with (b := toLowerCase sentence);
      [now apply contains_lower | exact Hinc]. }
  split; [exact E|].
  pose proof (verifyRuleMappings_cases generatedText authorizedObjects) as H.
  cbv zeta in H. rewrite E in H. simpl in H. tauto.
Qed.

Lemma text_without_normative_keyword_passes_witness :
  (forall kw, In kw normativeKeywords ->
              includes (toLowerCase "The stop was lawful.") kw = false)
  /\ ValidationCheck.status (verifyRuleMappings "The stop was lawful." [])
     = PASS.
Proof.
  assert (H : forall kw, In kw normativeKeywords ->
                includes (toLowerCase "The stop was lawful.") kw = false).
  { intros kw Hin. unfold normativeKeywords in Hin. simpl in Hin.
    repeat (destruct Hin as [<- | Hin]; [vm_compute; reflexivity|]).
    destruct Hin. }
  split; [exact H|].
  exact (proj2 (text_without_normative_keyword_passes "The stop was lawful." []
                  H)).
Defined.

(** X17. [extractCitations] reports each citation once: its result has no
    duplicate, and holds exactly the case names that the first pattern
    yields and the reporter citations that the second pattern matches. *)
Theorem extractCitations_distinct (text : string) :
  NoDup (extractCitations text)
  /\ forall citation,
       In citation (extractCitations text)
       <-> (exists m, In m (exec_all pattern1 text)
                      /\ citation = (group 1 m ++ " v. " ++ group 2 m)%string)
           \/ (exists m, In m (exec_all pattern2 text)
                         /\ citation = matched m).
Proof.
  unfold extractCitations. cbv zeta.
  destruct (dedupe_spec
              (map (fun m => (group 1 m ++ " v. " ++ group 2 m)%string)
                 (exec_all pattern1 text)
               ++ map matched (exec_all pattern2 text))) as (Hnd & Hin).
  split; [exact Hnd|]. intros citation.
  rewrite Hin, in_app_iff, !in_map_iff.
  split; (intros [(m & A & B) | (m & A & B)]; [left | right]; exists m; auto).
Qed.

(** X18. Every reporter citation that is extracted occurs verbatim in the
    text and holds [U.S.]; every case-name match of the first pattern
    occurs in the text and holds [v.]. *)
Theorem matches_occur_in_text (text : string) (m : rx_match) :
  (In m (exec_all pattern2 text) ->
   contains text (matched m) /\ contains (matched m) "U.S.")
  /\ (In m (exec_all pattern1 text) ->
      contains text (matched m) /\ contains (matched m) "v.").
Proof.
  split; intros H; apply exec_loop_sound in H as (L & C); split; auto.
  - now apply lang_pattern2.
  - now apply lang_pattern1.
Qed.

(** X19. A report of [validateGeneratedText] is consistent: it holds
    the citation, rule-mapping and constraint checks, in this order and
    with these types; the first two never warn; severity and recommended
    action go together (none, MINOR with CORRECT, MAJOR with REGENERATE,
    CRITICAL with REJECT); and the overall status is FAILED exactly when
    the severity is MAJOR or CRITICAL. *)
Theorem report_consistent (generatedText : string)
    (context : AuthorizedContext.t) :
  let report := validateGeneratedText generatedText context in
  map ValidationCheck.check_type (ValidationResult.validation_checks report)
  = [citation_verification; rule_to_field_mapping; constraint_compliance]
  /\ (forall check,
        In check (ValidationResult.validation_checks report) ->
        ValidationCheck.status check = WARNING ->
        ValidationCheck.check_type check = constraint_compliance)
  /\ ValidationResult.recommended_action report
     = match ValidationResult.severity report with
       | None => None
       | Some MINOR => Some CORRECT
       | Some MAJOR => Some REGENERATE
       | Some CRITICAL => Some REJECT
       end
  /\ (ValidationResult.overall_status report = FAILED
      <-> ValidationResult.severity report = Some MAJOR
          \/ ValidationResult.severity report = Some CRITICAL).
Proof.
  cbv zeta. rewrite validate_by_cases. cbv zeta.
  cbn [ValidationResult.validation_checks ValidationResult.severity
       ValidationResult.recommended_action ValidationResult.overall_status map].
  rewrite verifyCitations_check_type, verifyRuleMappings_check_type,
    verifyConstraintCompliance_check_type.
  split; [reflexivity|]. split.
  - intros check [<- | [<- | [<- | []]]] W.
    + destruct (verifyCitations_PASS_or_FAIL generatedText
                  (AuthorizedContext.reasoning_objects context)); congruence.
    + pose proof (verifyRuleMappings_cases generatedText
                    (AuthorizedContext.reasoning_objects context)) as H.
      cbv zeta in H. destruct (filter _ _); destruct H as (H & _); congruence.
    + apply verifyConstraintCompliance_check_type.
  - destruct (ValidationCheck.status (verifyCitations _ _));
      destruct (ValidationCheck.status (verifyRuleMappings _ _));
      destruct (ValidationCheck.status (verifyConstraintCompliance _ _));
      cbn; (split; [reflexivity|]); split;
      try discriminate; try reflexivity; auto;
      intros [H | H]; discriminate.
Qed.



(** X21. [normalizeCitation] yields a normal form: normalizing a
    normalized citation changes nothing. *)
Theorem normalizeCitation_idempotent (citation : string) :
  normalizeCitation (normalizeCitation citation) = normalizeCitation citation.
Proof.
  rewrite (normalizeCitation_direct citation).
  set (kept := keepChars wordOrSpace (toLowerCase citation)).
  set (u := trim (collapseFrom false kept)).
  assert (Hlow : allChars lowerFixed u = true).
  { apply allChars_trim, allChars_collapse; [reflexivity|].
    apply allChars_keep, allChars_lower. }
  assert (Hkeep : allChars wordOrSpace u = true).
  { apply allChars_trim, allChars_collapse; [reflexivity|].
    apply allChars_keep_same. }
  assert (Hsp : singleSpaced false u = true).
  { unfold u, trim.
    apply singleSpaced_trimEnd, (singleSpaced_trimStart _ false).
    apply collapse_singleSpaced. }
  rewrite normalizeCitation_direct.
  rewrite (lower_fixed u Hlow), (keep_fixed _ u Hkeep),
    (collapse_fixed u false Hsp).
  apply trim_idempotent.
Qed.

(** Search for a text among the pieces of a concatenation. *)
Ltac find_text :=
  first
    [ eassumption
    | apply contains_refl
    | match goal with
      | |- contains (_ ++ _)%string _ =>
          first [ apply contains_append_l; find_text
                | apply contains_append_r; find_text ]
      end ].

(** X22. The feedback for a retry is never empty: the adjustments
    derived from a report of [validateGeneratedText] are empty exactly
    when the report passed, so every failed report names at least one
    issue. *)
Theorem adjustments_empty_iff_passed (generatedText : string)
    (context : AuthorizedContext.t) :
  generateConstraintAdjustments
    (validateGeneratedText generatedText context) context = []
  <-> ValidationResult.overall_status
        (validateGeneratedText generatedText context) = PASSED.
Proof. apply adjustments_nil_iff. Qed.

Section Rendering.
Variables item_type item_facts item_question : BSetItem.t -> option string.

(** X23. The instructions render the context under stable numbers: they
    hold the domain line and the verbatim query line, and the block of
    every authorized item, the line of every required test and the line
    of every required element, each under its position (counted from 1)
    in the context. *)
Theorem instructions_render_context (context : AuthorizedContext.t)
    (query : string) :
  let instructions :=
    generateStructuredInstructions item_type item_facts item_question
      context query in
  let constraints := AuthorizedContext.constraint_objects context in
  contains instructions
    ("ANALYTICAL DOMAIN: "
     ++ TaxonomyNode.title (AuthorizedContext.target_node context) ++ nl)%string
  /\ contains instructions ("USER QUERY: " ++ query ++ nl ++ nl)%string
  /\ (forall idx obj,
        nth_error (AuthorizedContext.reasoning_objects context) idx = Some obj ->
        contains instructions
          (itemBlock item_type item_facts item_question obj idx))
  /\ (forall idx test,
        nth_error (filter ConstraintObject.is_test_standard constraints) idx
        = Some test ->
        contains instructions
          ("Test " ++ show_nat (idx + 1) ++ ": " ++ show_content test ++ nl)%string)
  /\ (forall idx elem,
        nth_error (filter ConstraintObject.is_element_factor constraints) idx
        = Some elem ->
        contains instructions
          (show_nat (idx + 1) ++ ". " ++ show_content elem ++ nl)%string).
Proof.
  cbv zeta. unfold generateStructuredInstructions. cbv zeta.
  set (tests := filter ConstraintObject.is_test_standard
                  (AuthorizedContext.constraint_objects context)).
  set (elements := filter ConstraintObject.is_element_factor
                     (AuthorizedContext.constraint_objects context)).
  set (objs := AuthorizedContext.reasoning_objects context).
  rewrite !reduce_append.
  split; [|split; [|split; [|split]]].
  - destruct (0 <? List.length tests), (0 <? List.length elements),
      (0 <? List.length objs); find_text.
  - destruct (0 <? List.length tests), (0 <? List.length elements),
      (0 <? List.length objs); find_text.
  - intros idx obj H.
    pose proof (concatFrom_nth (itemBlock item_type item_facts item_question)
                  objs 0 idx obj H) as Hblock.
    simpl in Hblock.
    assert (Hlen : (0 <? List.length objs) = true)
      by (destruct objs; [destruct idx; discriminate | reflexivity]).
    rewrite Hlen.
    destruct (0 <? List.length tests), (0 <? List.length elements); find_text.
  - intros idx test H.
    pose proof (concatFrom_nth
                  (fun test idx => ("Test " ++ show_nat (idx + 1) ++ ": "
                                    ++ show_content test ++ nl)%string)
                  tests 0 idx test H) as Hline.
    simpl in Hline.
    assert (Hlen : (0 <? List.length tests) = true)
      by (destruct tests; [destruct idx; discriminate | reflexivity]).
    rewrite Hlen.
    destruct (0 <? List.length elements), (0 <? List.length objs); find_text.
  - intros idx elem H.
    pose proof (concatFrom_nth
                  (fun elem idx => (show_nat (idx + 1) ++ ". "
                                    ++ show_content elem ++ nl)%string)
                  elements 0 idx elem H) as Hline.
    simpl in Hline.
    assert (Hlen : (0 <? List.length elements) = true)
      by (destruct elements; [destruct idx; discriminate | reflexivity]).
    rewrite Hlen.
    destruct (0 <? List.length tests), (0 <? List.length objs); find_text.
Qed.

End Rendering.
